(** * A shallow embedding of the VoIP call broker

    The development follows the TypeScript sources:

    - [repositories/call.repository.ts]  the in-memory call table;
    - [services/asterisk.service.ts]     the PBX (Asterisk AMI) client and the
                                         PBX side of the call life cycle;
    - [services/twilio.service.ts]       the cloud (Twilio) webhooks;
    - [services/call.service.ts]         the provider router.

    Conventions.

    - A JavaScript string is a [string]; one character stands for one UTF-16
      code unit, so [String.length] is the [length] property. The text
      decoded from the bytes of the socket ([toString]) is the exception: a
      character beyond ASCII is held there as the bytes of its UTF-8 form.
    - A [Date] is its millisecond time stamp, a [Z]; [Date.now()] and
      [new Date()] read the [now] argument of the handler that runs.
    - A [Map<string, V>] is a [gmap string V].
    - Every handler of the event loop (an exported function up to its first
      real suspension, a socket callback, a timer callback, the resumption of
      an [await]) is one atomic transition. A handler yields the next state
      and the list of its observable effects ([Output]), oldest first. An
      [await] on a pending AMI command stores a defunctionalised continuation
      ([Cont]) in the pending-action table.
    - A callback of the event loop runs with the microtasks it leaves
      before the event loop takes anything else, and an exported operation
      is taken as called when no other handler is under way. A socket read
      that completes one message is the input [SocketMessage]: its handler,
      asynchronous tail included, is finished within the read. A read that
      completes several messages is the input [SocketData]: the 'data'
      callback starts the handlers of all its messages one after the other,
      and what they leave at their [await]s runs interleaved, from the
      microtask queue ([handleData]).
    - [Math.random()] and [generateId()] are read from the input of the
      handler. *)

From stdpp Require Import gmap strings list fin_maps pretty.
From Stdlib Require Import ZArith Lia Ascii String.

Local Open Scope string_scope.
Local Open Scope list_scope.
Local Open Scope Z_scope.

(** ** Data model *)

(** The status type, as [mapTwilioStatusToCallStatus] spells it out. *)
Inductive CallStatus := incoming | outgoing | connected | ended | failed.

Inductive Provider := asterisk | twilio.

#[global] Instance CallStatus_eq_dec : EqDecision CallStatus.
Proof. solve_decision. Defined.

#[global] Instance Provider_eq_dec : EqDecision Provider.
Proof. solve_decision. Defined.

(** Modelled from the spec: the declarations of [types/call.types.ts]
    ([Call], [CallEvent], [CallRequest]) are not among the sources. A call
    has the fields of the specification's data model, under the names the
    services give them in the object literals they build; the optional
    ones are those some literal leaves out. *)
Record Call := mkCall {
  id : string;
  from : string;
  to : string;
  status : CallStatus;
  startTime : Z;
  endTime : option Z;
  duration : option Z;
  channel : option string;
  twilioCallSid : option string;
  provider : Provider
}.

(** [Partial<Call>] as the services build it: only these three fields are
    ever named in an update. *)
Record CallUpdate := mkUpdate {
  u_status : option CallStatus;
  u_endTime : option Z;
  u_duration : option Z
}.

(** [{ ...call, ...updates }] *)
Definition merge (c : Call) (u : CallUpdate) : Call :=
  {| id := id c;
     from := from c;
     to := to c;
     status := default (status c) (u_status u);
     startTime := startTime c;
     endTime := match u_endTime u with Some t => Some t | None => endTime c end;
     duration := match u_duration u with Some d => Some d | None => duration c end;
     channel := channel c;
     twilioCallSid := twilioCallSid c;
     provider := provider c |}.

(** [Object.keys(updateData).length > 0] *)
Definition nonempty_update (u : CallUpdate) : bool :=
  bool_decide (is_Some (u_status u)) || bool_decide (is_Some (u_endTime u))
  || bool_decide (is_Some (u_duration u)).

(** Truthiness of an optional string: [undefined] and [''] are falsy. *)
Definition truthy (o : option string) : bool :=
  match o with
  | Some s => negb (String.eqb s "")
  | None => false
  end.

(** ** The call repository *)

Module CallRepository.

Definition createCall (c : Call) (calls : gmap string Call) : gmap string Call :=
  <[id c := c]> calls.

Definition getCall (i : string) (calls : gmap string Call) : option Call :=
  calls !! i.

Definition updateCall (i : string) (u : CallUpdate) (calls : gmap string Call)
  : gmap string Call :=
  match calls !! i with
  | Some c => <[i := merge c u]> calls
  | None => calls
  end.

Definition active (c : Call) : bool :=
  bool_decide (status c = connected) || bool_decide (status c = incoming).

Definition getActiveConnections (calls : gmap string Call) : list Call :=
  filter (fun c => active c = true) (map snd (map_to_list calls)).

Definition clearAllCalls (calls : gmap string Call) : gmap string Call := ∅.

End CallRepository.

(** ** The provider router ([call.service.ts]) *)

Record CallRequest := mkRequest {
  req_from : string;
  req_to : string;
  req_provider : option Provider
}.

Definition determineProvider (request : CallRequest) : Provider :=
  match req_provider request with
  | Some p => p
  | None =>
      if String.prefix "+" (req_to request)
         || (6 <? String.length (req_to request))%nat
      then twilio
      else asterisk
  end.

(** ** The cloud status lookup ([twilio.service.ts]) *)

Definition mapTwilioStatusToCallStatus (twilioStatus : string) : CallStatus :=
  if String.eqb twilioStatus "queued" then incoming
  else if String.eqb twilioStatus "ringing" then incoming
  else if String.eqb twilioStatus "in-progress" then connected
  else if String.eqb twilioStatus "completed" then ended
  else if String.eqb twilioStatus "busy" then ended
  else if String.eqb twilioStatus "no-answer" then ended
  else if String.eqb twilioStatus "failed" then ended
  else if String.eqb twilioStatus "canceled" then ended
  else failed.

(** ** The PBX protocol client and the life cycle ([asterisk.service.ts])

    An AMI message, parsed, is an object from field names to strings. *)

Abbreviation AmiResponse := (gmap string string).

Definition CR : ascii := "013"%char.

Definition LF : ascii := "010"%char.

Definition CRLF : string := String CR (String LF EmptyString).

(** [data] of a [CallEvent]: the shapes the services build. *)
Inductive EventData :=
| DataCall (c : Call)
| DataCause (cause : option string) (dur : option Z)
| DataChannel (chan : option string)
| DataStatus (st : CallStatus) (twilioStatus : string).

Record CallEvent := mkEvent {
  ev_type : CallStatus;
  ev_callId : string;
  ev_data : EventData
}.

(** What a promise handed to a caller settles with. *)
Inductive Value :=
| VVoid
| VCallId (callId : string)
| VResponse (r : AmiResponse).

Inductive Outcome :=
| Resolved (v : Value)
| Rejected (message : string).

(** The code that waits for the response of an AMI command: the [resolve]
    stored in [pendingActions] together with the [reject] captured by the
    timeout closure. [tok] names the promise returned to an outside caller. *)
Inductive Cont :=
| KLogin
| KEvents
| KOriginate (tok : nat) (callId fromNumber toNumber : string) (rnd : nat)
| KHangup (tok : nat) (callId : string) (call : Call)
| KReject (tok : nat) (callId : string)
| KExternal (tok : nat).

Inductive TimerKind :=
| ReconnectTimeout
| ActionTimeout (actionIdValue : string).

Inductive Output :=
| Settle (tok : nat) (o : Outcome)
| ConnectPromise (o : Outcome)
| CallEventEmitted (e : CallEvent)
| TwilioEventEmitted (e : CallEvent)
| ConnectEmitted
| SocketWrite (frame : string)
| SocketConnect (p : Z) (h : string)
| SocketDestroy
| SetTimeout (delay : Z) (k : TimerKind).

(** The closure of the [setTimeout] armed by [sendAmiCommand]. *)
Record ActionTimer := mkTimer {
  t_due : Z;
  t_actionId : string;
  t_command : string;
  t_reject : Cont
}.

Inductive Socket := NetSocket.

(** What the services read from the environment: the AMI address and
    credentials, and whether the Twilio credentials are there, so that the
    Twilio [client] is not [null]. *)
Record Config := mkConfig {
  host : string;
  port : Z;
  username : string;
  password : string;
  twilioClient : bool
}.

(** The closure variables of [createAsteriskService] and of
    [createCallRepository] ([calls]), with the timeouts that
    [sendAmiCommand] has armed and that have not fired yet ([timers]). *)
Record State := mkState {
  config : Config;
  isConnected : bool;
  connectionAttempts : nat;
  amiSocket : option Socket;
  actionId : nat;
  pendingActions : gmap string Cont;
  reconnectTimer : option Z;
  timers : list ActionTimer;
  calls : gmap string Call
}.

Definition maxRetries : nat := 5.

Definition set_isConnected (b : bool) (st : State) : State :=
  mkState (config st) b (connectionAttempts st) (amiSocket st) (actionId st)
          (pendingActions st) (reconnectTimer st) (timers st) (calls st).

Definition set_connectionAttempts (n : nat) (st : State) : State :=
  mkState (config st) (isConnected st) n (amiSocket st) (actionId st)
          (pendingActions st) (reconnectTimer st) (timers st) (calls st).

Definition set_amiSocket (s : option Socket) (st : State) : State :=
  mkState (config st) (isConnected st) (connectionAttempts st) s (actionId st)
          (pendingActions st) (reconnectTimer st) (timers st) (calls st).

Definition set_actionId (n : nat) (st : State) : State :=
  mkState (config st) (isConnected st) (connectionAttempts st) (amiSocket st) n
          (pendingActions st) (reconnectTimer st) (timers st) (calls st).

Definition set_pendingActions (p : gmap string Cont) (st : State) : State :=
  mkState (config st) (isConnected st) (connectionAttempts st) (amiSocket st)
          (actionId st) p (reconnectTimer st) (timers st) (calls st).

Definition set_reconnectTimer (t : option Z) (st : State) : State :=
  mkState (config st) (isConnected st) (connectionAttempts st) (amiSocket st)
          (actionId st) (pendingActions st) t (timers st) (calls st).

Definition set_timers (l : list ActionTimer) (st : State) : State :=
  mkState (config st) (isConnected st) (connectionAttempts st) (amiSocket st)
          (actionId st) (pendingActions st) (reconnectTimer st) l (calls st).

Definition set_calls (c : gmap string Call) (st : State) : State :=
  mkState (config st) (isConnected st) (connectionAttempts st) (amiSocket st)
          (actionId st) (pendingActions st) (reconnectTimer st) (timers st) c.

(** *** Outbound commands *)

Definition notConnected : string := "Not connected to Asterisk AMI".

Definition actionTimeout : Z := 10000.

(** [`action_${++actionId}_${Date.now()}`], read after the increment. *)
Definition actionIdString (n : nat) (now : Z) : string :=
  "action_" +:+ pretty n +:+ "_" +:+ pretty now.

Definition paramText (p : string * string) : string :=
  p.1 +:+ ": " +:+ p.2.

Definition paramLine (p : string * string) : string :=
  paramText p +:+ CRLF.

(** The frame [sendAmiCommand] builds; [params] is [Object.entries(params)]
    with every value already converted to a string. *)
Definition amiFrame (command actionIdValue : string)
    (params : list (string * string)) : string :=
  "Action: " +:+ command +:+ CRLF +:+ "ActionID: " +:+ actionIdValue +:+ CRLF
  +:+ String.concat "" (map paramLine params) +:+ CRLF.

(** [sendAmiCommand]: [None] is the immediate rejection with [notConnected];
    otherwise the command is registered under a fresh identifier, its
    timeout is armed and the frame is written. [k] is what waits for it. *)
Definition sendAmiCommand (command : string) (params : list (string * string))
    (k : Cont) (now : Z) (st : State) : option (State * list Output) :=
  if negb (isConnected st) || negb (bool_decide (is_Some (amiSocket st))) then None
  else
    let n := S (actionId st) in
    let actionIdValue := actionIdString n now in
    let message := amiFrame command actionIdValue params in
    let st1 := set_actionId n st in
    let st2 := set_pendingActions (<[actionIdValue := k]> (pendingActions st1)) st1 in
    let st3 := set_timers (timers st2 ++ [mkTimer (now + actionTimeout) actionIdValue command k]) st2 in
    Some (st3, [SetTimeout actionTimeout (ActionTimeout actionIdValue); SocketWrite message]).

(** *** The call life cycle on the PBX side *)

Definition endedUpdate (endT : Z) (dur : option Z) : CallUpdate :=
  mkUpdate (Some ended) (Some endT) dur.

Definition statusUpdate (s : CallStatus) : CallUpdate :=
  mkUpdate (Some s) None None.

(** [Math.floor((endTime.getTime() - call.startTime.getTime()) / 1000)] *)
Definition elapsedSeconds (now : Z) (call : Call) : Z :=
  (now - startTime call) / 1000.

Definition originateParams (fromNumber toNumber callId : string)
  : list (string * string) :=
  [("Channel", "SIP/" +:+ fromNumber); ("Context", "default");
   ("Exten", toNumber); ("Priority", "1"); ("CallerID", fromNumber);
   ("Timeout", "30000"); ("ActionID", callId)].

(** [makeCall] from the construction of the record on. *)
Definition finishMakeCall (tok : nat) (callId fromNumber toNumber : string)
    (rnd : nat) (now : Z) (st : State) : State * list Output :=
  let call := mkCall callId fromNumber toNumber outgoing now None None
                (Some ("SIP/" +:+ fromNumber +:+ "-" +:+ pretty rnd)) None asterisk in
  (set_calls (CallRepository.createCall call (calls st)) st,
   [CallEventEmitted (mkEvent outgoing callId (DataCall call));
    Settle tok (Resolved (VCallId callId))]).

Definition makeCall (tok : nat) (fromNumber toNumber callId : string)
    (rnd : nat) (now : Z) (st : State) : State * list Output :=
  if isConnected st then
    match sendAmiCommand "Originate" (originateParams fromNumber toNumber callId)
            (KOriginate tok callId fromNumber toNumber rnd) now st with
    | Some r => r
    | None => (st, [Settle tok (Rejected notConnected)])
    end
  else finishMakeCall tok callId fromNumber toNumber rnd now st.

(** [hangupCall] after the optional Hangup command; [call] is the record
    read before the command was sent. *)
Definition finishHangup (tok : nat) (callId : string) (call : Call)
    (now : Z) (st : State) : State * list Output :=
  let dur := elapsedSeconds now call in
  (set_calls (CallRepository.updateCall callId (endedUpdate now (Some dur)) (calls st)) st,
   [CallEventEmitted (mkEvent ended callId (DataCause (Some "hangup") (Some dur)));
    Settle tok (Resolved VVoid)]).

Definition hangupCall (tok : nat) (callId : string) (now : Z) (st : State)
  : State * list Output :=
  match CallRepository.getCall callId (calls st) with
  | Some call =>
      if truthy (channel call) then
        if isConnected st then
          match sendAmiCommand "Hangup" [("Channel", default "" (channel call))]
                  (KHangup tok callId call) now st with
          | Some r => r
          | None => (st, [Settle tok (Rejected notConnected)])
          end
        else finishHangup tok callId call now st
      else (st, [Settle tok (Rejected "Call not found or no channel")])
  | None => (st, [Settle tok (Rejected "Call not found or no channel")])
  end.

Definition acceptCall (tok : nat) (callId : string) (st : State)
  : State * list Output :=
  match CallRepository.getCall callId (calls st) with
  | None => (st, [Settle tok (Rejected "Call not found")])
  | Some call =>
      if negb (bool_decide (status call = incoming)) then
        (st, [Settle tok (Rejected "Call is not in incoming state")])
      else
        (set_calls (CallRepository.updateCall callId (statusUpdate connected) (calls st)) st,
         [CallEventEmitted (mkEvent connected (id call) (DataChannel (channel call)));
          Settle tok (Resolved VVoid)])
  end.

(** [rejectCall] after the optional Hangup command, whose failure is only
    logged. *)
Definition finishReject (tok : nat) (callId : string) (now : Z) (st : State)
  : State * list Output :=
  (set_calls (CallRepository.updateCall callId (endedUpdate now None) (calls st)) st,
   [CallEventEmitted (mkEvent ended callId (DataCause (Some "rejected") None));
    Settle tok (Resolved VVoid)]).

Definition rejectCall (tok : nat) (callId : string) (now : Z) (st : State)
  : State * list Output :=
  match CallRepository.getCall callId (calls st) with
  | None => (st, [Settle tok (Rejected "Call not found")])
  | Some call =>
      if negb (bool_decide (status call = incoming)) then
        (st, [Settle tok (Rejected "Call is not in incoming state")])
      else if isConnected st && truthy (channel call) then
        match sendAmiCommand "Hangup" [("Channel", default "" (channel call))]
                (KReject tok callId) now st with
        | Some r => r
        | None => finishReject tok callId now st
        end
      else finishReject tok callId now st
  end.

Definition simulateIncomingCall (tok : nat) (fromNumber toNumber callId : string)
    (rnd : nat) (now : Z) (st : State) : State * list Output :=
  let call := mkCall callId fromNumber toNumber incoming now None None
                (Some ("SIP/simulated-" +:+ pretty rnd)) None asterisk in
  (set_calls (CallRepository.createCall call (calls st)) st,
   [CallEventEmitted (mkEvent incoming callId (DataCall call));
    Settle tok (Resolved (VCallId callId))]).

(** *** Unsolicited AMI events *)

(** [x || d] on an optional string *)
Definition orElse (o : option string) (d : string) : string :=
  if truthy o then default d o else d.

Definition handleIncomingCall (event : AmiResponse) (rid : string) (now : Z)
    (st : State) : State * list Output :=
  let callId := orElse (event !! "Uniqueid") rid in
  let call := mkCall callId (orElse (event !! "CallerIDNum") "Unknown")
                (orElse (event !! "Exten") "1001") incoming now None None
                (event !! "Channel") None asterisk in
  (set_calls (CallRepository.createCall call (calls st)) st,
   [CallEventEmitted (mkEvent incoming callId (DataCall call))]).

Definition handleCallHangup (event : AmiResponse) (now : Z) (st : State)
  : State * list Output :=
  if truthy (event !! "Uniqueid") then
    let callId := default "" (event !! "Uniqueid") in
    match CallRepository.getCall callId (calls st) with
    | Some call =>
        let dur := elapsedSeconds now call in
        (set_calls (CallRepository.updateCall callId (endedUpdate now (Some dur)) (calls st)) st,
         [CallEventEmitted (mkEvent ended callId (DataCause (event !! "Cause") (Some dur)))])
    | None => (st, [])
    end
  else (st, []).

Definition handleCallConnected (event : AmiResponse) (st : State)
  : State * list Output :=
  if truthy (event !! "Uniqueid") then
    let callId := default "" (event !! "Uniqueid") in
    match CallRepository.getCall callId (calls st) with
    | Some call =>
        if negb (bool_decide (status call = connected)) then
          (set_calls (CallRepository.updateCall callId (statusUpdate connected) (calls st)) st,
           [CallEventEmitted (mkEvent connected callId (DataChannel (event !! "Channel")))])
        else (st, [])
    | None => (st, [])
    end
  else (st, []).

Definition fieldIs (event : AmiResponse) (key value : string) : bool :=
  match event !! key with
  | Some v => String.eqb v value
  | None => false
  end.

Definition handleAmiEvent (event : AmiResponse) (rid : string) (now : Z)
    (st : State) : State * list Output :=
  if fieldIs event "Event" "Newchannel" then
    if truthy (event !! "Exten") && truthy (event !! "CallerIDNum")
    then handleIncomingCall event rid now st else (st, [])
  else if fieldIs event "Event" "Hangup" then
    if truthy (event !! "Uniqueid") then handleCallHangup event now st else (st, [])
  else if fieldIs event "Event" "Newstate" then
    if fieldIs event "ChannelState" "6" then handleCallConnected event st else (st, [])
  else (st, []).

(** *** Resuming the code that awaits a command

    [inl response] is the call of the stored [resolve], [inr message] the
    call of [reject] with [new Error(message)]. *)

Definition resume (k : Cont) (r : AmiResponse + string) (now : Z) (st : State)
  : State * list Output :=
  match k, r with
  | KLogin, inl _ =>
      (* isConnected = true; connectionAttempts = 0; emit('connect');
         setupEventListeners(); resolve() *)
      let st1 := set_connectionAttempts 0 (set_isConnected true st) in
      match sendAmiCommand "Events" [("EventMask", "call,system")] KEvents now st1 with
      | Some (st2, out) => (st2, ConnectEmitted :: out ++ [ConnectPromise (Resolved VVoid)])
      | None => (st1, [ConnectEmitted; ConnectPromise (Resolved VVoid)])
      end
  | KLogin, inr e => (set_isConnected false st, [ConnectPromise (Rejected e)])
  | KEvents, _ => (st, [])
  | KOriginate tok callId fromNumber toNumber rnd, inl response =>
      if fieldIs response "Response" "Success"
      then finishMakeCall tok callId fromNumber toNumber rnd now st
      else (st, [Settle tok (Rejected ("AMI Originate failed: "
                                       +:+ default "undefined" (response !! "Message")))])
  | KOriginate tok _ _ _ _, inr e => (st, [Settle tok (Rejected e)])
  | KHangup tok callId call, inl _ => finishHangup tok callId call now st
  | KHangup tok _ _, inr e => (st, [Settle tok (Rejected e)])
  | KReject tok callId, _ => finishReject tok callId now st
  | KExternal tok, inl response => (st, [Settle tok (Resolved (VResponse response))])
  | KExternal tok, inr e => (st, [Settle tok (Rejected e)])
  end.

(** [handleAmiMessage] for a message that is handled alone, the
    asynchronous tail of the handler it starts included: what the 'data'
    callback does on a read that completes this one message. The messages
    of a read that completes several are started one after the other and
    their tails interleave ([handleData] below, which agrees with this
    function on a single message). *)
Definition handleAmiMessage (message : AmiResponse) (rid : string) (now : Z)
    (st : State) : State * list Output :=
  let asEvent :=
    if truthy (message !! "Event") then handleAmiEvent message rid now st
    else (st, []) in
  if truthy (message !! "ActionID") then
    let aid := default "" (message !! "ActionID") in
    match pendingActions st !! aid with
    | Some callback =>
        resume callback (inl message) now
               (set_pendingActions (delete aid (pendingActions st)) st)
    | None => asEvent
    end
  else asEvent.

(** *** Several messages in one socket read

    The 'data' callback calls [handleAmiMessage] for every complete
    message of the read, one after the other, and none of the handlers it
    starts is awaited: each runs up to its first [await] and leaves the
    rest of its work to the microtask queue. When the loop is done, what
    is left of the handlers runs from that queue, first in, first out, one
    stretch from one [await] to the next at a time. An [await] on a call
    of the repository takes one turn of the queue, the repository having
    done its work when it was called; so does the resumption of the code
    that awaits a command whose response has come in. *)

(** What is left of a handler at an [await]: the notification and the
    settlement that follow the last [await]; [handleCallHangup] and
    [handleCallConnected] with the record that [getCall] has read; the code
    that awaits the command whose response has arrived. *)
Inductive Task :=
| TEmit (out : list Output)
| THangup (event : AmiResponse) (call : option Call)
| TConnected (event : AmiResponse) (call : option Call)
| TResume (callback : Cont) (message : AmiResponse).

(** [handleAmiEvent] up to the first [await] of the handler it calls:
    [handleIncomingCall] has stored the record, the other two have read
    theirs. *)
Definition startAmiEvent (event : AmiResponse) (rid : string) (now : Z)
    (st : State) : State * list Output * list Task :=
  if fieldIs event "Event" "Newchannel" then
    if truthy (event !! "Exten") && truthy (event !! "CallerIDNum")
    then (fst (handleIncomingCall event rid now st), [],
          [TEmit (snd (handleIncomingCall event rid now st))])
    else (st, [], [])
  else if fieldIs event "Event" "Hangup" then
    if truthy (event !! "Uniqueid")
    then (st, [], [THangup event (CallRepository.getCall (default "" (event !! "Uniqueid"))
                                                         (calls st))])
    else (st, [], [])
  else if fieldIs event "Event" "Newstate" then
    if fieldIs event "ChannelState" "6" && truthy (event !! "Uniqueid")
    then (st, [], [TConnected event
                     (CallRepository.getCall (default "" (event !! "Uniqueid")) (calls st))])
    else (st, [], [])
  else (st, [], []).

(** [handleAmiMessage] as far as it runs inside the loop: a response takes
    its entry out of the table and calls the stored [resolve]; that
    settles the promise of an outside caller on the spot and queues the
    code of the service that awaits the command. *)
Definition startAmiMessage (message : AmiResponse) (rid : string) (now : Z)
    (st : State) : State * list Output * list Task :=
  let asEvent :=
    if truthy (message !! "Event") then startAmiEvent message rid now st
    else (st, [], []) in
  if truthy (message !! "ActionID") then
    let aid := default "" (message !! "ActionID") in
    match pendingActions st !! aid with
    | Some callback =>
        let st1 := set_pendingActions (delete aid (pendingActions st)) st in
        match callback with
        | KExternal _ => (fst (resume callback (inl message) now st1),
                          snd (resume callback (inl message) now st1), [])
        | _ => (st1, [], [TResume callback message])
        end
    | None => asEvent
    end
  else asEvent.

(** Whether the code that awaits a command goes through one more [await],
    on the repository, before it notifies and returns. *)
Definition awaitsRepository (callback : Cont) (message : AmiResponse) : bool :=
  match callback with
  | KOriginate _ _ _ _ _ => fieldIs message "Response" "Success"
  | KHangup _ _ _ | KReject _ _ => true
  | _ => false
  end.

(** One stretch of a handler, from the [await] it stopped at to the next
    one or to its end. The update is computed from the record read before
    the [await]; [updateCall] applies it to the record stored now. *)
Definition runTask (t : Task) (now : Z) (st : State)
  : State * list Output * list Task :=
  match t with
  | TEmit out => (st, out, [])
  | THangup event call =>
      match call with
      | Some c =>
          let callId := default "" (event !! "Uniqueid") in
          let dur := elapsedSeconds now c in
          (set_calls (CallRepository.updateCall callId (endedUpdate now (Some dur)) (calls st)) st,
           [],
           [TEmit [CallEventEmitted
                     (mkEvent ended callId (DataCause (event !! "Cause") (Some dur)))]])
      | None => (st, [], [])
      end
  | TConnected event call =>
      match call with
      | Some c =>
          if negb (bool_decide (status c = connected)) then
            let callId := default "" (event !! "Uniqueid") in
            (set_calls (CallRepository.updateCall callId (statusUpdate connected) (calls st)) st,
             [],
             [TEmit [CallEventEmitted
                       (mkEvent connected callId (DataChannel (event !! "Channel")))]])
          else (st, [], [])
      | None => (st, [], [])
      end
  | TResume callback message =>
      if awaitsRepository callback message
      then (fst (resume callback (inl message) now st), [],
            [TEmit (snd (resume callback (inl message) now st))])
      else (fst (resume callback (inl message) now st),
            snd (resume callback (inl message) now st), [])
  end.

(** Stretches run one after the other; what they queue is kept in their
    order. *)
Fixpoint runAll (stretches : list (Z → State → State * list Output * list Task))
    (now : Z) (st : State) : State * list Output * list Task :=
  match stretches with
  | [] => (st, [], [])
  | stretch :: rest =>
      let '(st1, out1, queued1) := stretch now st in
      let '(st2, out2, queued2) := runAll rest now st1 in
      (st2, out1 ++ out2, queued1 ++ queued2)
  end.

(** The loop of the 'data' callback over the messages of one read, each
    with the identifier [generateId()] would give its call. *)
Definition startAll (messages : list (AmiResponse * string)) (now : Z) (st : State)
  : State * list Output * list Task :=
  runAll (map (fun m => startAmiMessage m.1 m.2) messages) now st.

(** One turn through the queue. *)
Definition runRound (queue : list Task) (now : Z) (st : State)
  : State * list Output * list Task :=
  runAll (map runTask queue) now st.

(** A socket read that completes [messages]: the loop, then the queue
    until it is empty. No handler of the loop has more than two [await]s
    ahead of it, so the second turn leaves nothing queued. *)
Definition handleData (messages : list (AmiResponse * string)) (now : Z) (st : State)
  : State * list Output :=
  let '(st0, out0, queue0) := startAll messages now st in
  let '(st1, out1, queue1) := runRound queue0 now st0 in
  let '(st2, out2, _) := runRound queue1 now st1 in
  (st2, out0 ++ out1 ++ out2).

(** The closure [sendAmiCommand] hands to [setTimeout]. *)
Definition timeoutMessage (command : string) : string :=
  "AMI command timeout: " +:+ command.

Definition actionTimeoutFired (t : ActionTimer) (now : Z) (st : State)
  : State * list Output :=
  match pendingActions st !! t_actionId t with
  | Some _ =>
      resume (t_reject t) (inr (timeoutMessage (t_command t))) now
             (set_pendingActions (delete (t_actionId t) (pendingActions st)) st)
  | None => (st, [])
  end.

(** *** Connection handling *)

Definition connectToAsterisk (st : State) : State * list Output :=
  (set_amiSocket (Some NetSocket) st,
   [SocketConnect (port (config st)) (host (config st))]).

(** [Math.min(1000 * Math.pow(2, connectionAttempts), 30000)] *)
Definition reconnectDelay (attempts : nat) : Z :=
  Z.min (1000 * 2 ^ Z.of_nat attempts) 30000.

Definition scheduleReconnect (now : Z) (st : State) : State * list Output :=
  match reconnectTimer st with
  | Some _ => (st, [])
  | None =>
      let n := S (connectionAttempts st) in
      let st1 := set_connectionAttempts n st in
      if (maxRetries <=? n)%nat then (st1, [])
      else
        let delay := reconnectDelay n in
        (set_reconnectTimer (Some (now + delay)) st1,
         [SetTimeout delay ReconnectTimeout])
  end.

Definition onConnect (now : Z) (st : State) : State * list Output :=
  match sendAmiCommand "Login"
          [("Username", username (config st)); ("Secret", password (config st))]
          KLogin now st with
  | Some r => r
  | None => resume KLogin (inr notConnected) now st
  end.

Definition onError (message : string) (now : Z) (st : State)
  : State * list Output :=
  let st1 := set_isConnected false st in
  let rejected :=
    if (connectionAttempts st1 =? 0)%nat then [ConnectPromise (Rejected message)]
    else [] in
  let '(st2, out) := scheduleReconnect now st1 in
  (st2, rejected ++ out).

Definition onClose (now : Z) (st : State) : State * list Output :=
  scheduleReconnect now (set_isConnected false st).

Definition reconnectTimerFired (now : Z) (st : State) : State * list Output :=
  match reconnectTimer st with
  | Some due =>
      if due <=? now then connectToAsterisk (set_reconnectTimer None st)
      else (st, [])
  | None => (st, [])
  end.

Definition reconnect (st : State) : State * list Output :=
  connectToAsterisk (set_reconnectTimer None (set_connectionAttempts 0 st)).

Definition cleanup (st : State) : State * list Output :=
  let st1 := set_reconnectTimer None st in
  let '(st2, out) :=
    match amiSocket st1 with
    | Some _ => (set_amiSocket None st1, [SocketDestroy])
    | None => (st1, [])
    end in
  (set_isConnected false (set_pendingActions ∅ st2), out).

(** The exported [sendAmiCommand], called from outside the service. *)
Definition externalSend (tok : nat) (command : string)
    (params : list (string * string)) (now : Z) (st : State)
  : State * list Output :=
  match sendAmiCommand command params (KExternal tok) now st with
  | Some r => r
  | None => (st, [Settle tok (Rejected notConnected)])
  end.

(** ** The cloud webhooks ([twilio.service.ts])

    [req.body] of the status webhook and of the dial-status webhook. The
    duration field is given as [Number.parseInt] reads it, [None] for [NaN]. *)

Record WebhookBody := mkWebhook {
  CallSid : option string;
  From : string;
  To : string;
  CallStatus_ : string;
  Direction : string
}.

Record DialBody := mkDial {
  d_CallSid : option string;
  DialCallStatus : string;
  DialCallDuration : option Z
}.

(** [`Twilio/${CallSid}`] *)
Definition twilioChannel (sid : option string) : string :=
  "Twilio/" +:+ default "undefined" sid.

Definition isFinalTwilioStatus (s : string) : bool :=
  String.eqb s "completed" || String.eqb s "busy" || String.eqb s "no-answer"
  || String.eqb s "failed".

Definition handleIncomingWebhook (tok : nat) (body : WebhookBody) (rid : string)
    (now : Z) (st : State) : State * list Output :=
  let callId := orElse (CallSid body) rid in
  let ret := Settle tok (Resolved (VCallId callId)) in
  match CallRepository.getCall callId (calls st) with
  | None =>
      if String.eqb (CallStatus_ body) "ringing"
         || String.eqb (CallStatus_ body) "in-progress" then
        let dir := if String.eqb (Direction body) "inbound" then incoming else outgoing in
        let call := mkCall callId (From body) (To body) dir now None None
                      (Some (twilioChannel (CallSid body))) (CallSid body) twilio in
        (set_calls (CallRepository.createCall call (calls st)) st,
         [TwilioEventEmitted (mkEvent dir callId (DataCall call)); ret])
      else (st, [ret])
  | Some existingCall =>
      let updatedStatus := mapTwilioStatusToCallStatus (CallStatus_ body) in
      if negb (bool_decide (updatedStatus = status existingCall)) then
        let updateData :=
          if isFinalTwilioStatus (CallStatus_ body)
          then mkUpdate (Some updatedStatus) (Some now)
                        (Some (elapsedSeconds now existingCall))
          else statusUpdate updatedStatus in
        (set_calls (CallRepository.updateCall callId updateData (calls st)) st,
         [TwilioEventEmitted
            (mkEvent (if bool_decide (updatedStatus = connected) then connected else ended)
                     callId (DataStatus updatedStatus (CallStatus_ body)));
          ret])
      else (st, [ret])
  end.

Definition handleDialStatus (tok : nat) (body : DialBody) (now : Z) (st : State)
  : State * list Output :=
  let ret := Settle tok (Resolved VVoid) in
  if truthy (d_CallSid body) then
    let sid := default "" (d_CallSid body) in
    match CallRepository.getCall sid (calls st) with
    | Some call =>
        let updateData :=
          if String.eqb (DialCallStatus body) "completed" then
            endedUpdate now (Some (match DialCallDuration body with
                                   | Some d => d   (* NaN || 0 and 0 || 0 are 0 *)
                                   | None => 0
                                   end))
          else if String.eqb (DialCallStatus body) "busy"
                  || String.eqb (DialCallStatus body) "no-answer" then
            endedUpdate now None
          else mkUpdate None None None in
        if nonempty_update updateData then
          (set_calls (CallRepository.updateCall sid updateData (calls st)) st,
           [TwilioEventEmitted
              (mkEvent ended sid (DataCause (Some (DialCallStatus body)) (u_duration updateData)));
            ret])
        else (st, [ret])
    | None => (st, [ret])
    end
  else (st, [ret]).

Definition noTwilioClient : string :=
  "Twilio client not initialized. Please check your Twilio credentials.".

(** [sdk] is what [client.calls.create] answers: the call's [sid], [from]
    and [to], or the message of the error it throws. *)
Definition makeOutgoingCall (tok : nat) (sdk : string * string * string + string)
    (now : Z) (st : State) : State * list Output :=
  if negb (twilioClient (config st)) then (st, [Settle tok (Rejected noTwilioClient)])
  else
    match sdk with
    | inl (sid, f, t) =>
        let callRecord := mkCall sid f t outgoing now None None
                            (Some (twilioChannel (Some sid))) (Some sid) twilio in
        (set_calls (CallRepository.createCall callRecord (calls st)) st,
         [TwilioEventEmitted (mkEvent outgoing sid (DataCall callRecord));
          Settle tok (Resolved (VCallId sid))])
    | inr e => (st, [Settle tok (Rejected e)])
    end.

(** [sdk] is [None] when [client.calls(sid).update] succeeds, otherwise the
    message of the error it throws. *)
Definition endTwilioCall (tok : nat) (callId : string) (sdk : option string)
    (now : Z) (st : State) : State * list Output :=
  if negb (twilioClient (config st)) then (st, [Settle tok (Rejected noTwilioClient)])
  else
    match CallRepository.getCall callId (calls st) with
    | Some call =>
        if truthy (twilioCallSid call) then
          match sdk with
          | None =>
              (set_calls (CallRepository.updateCall callId (endedUpdate now None) (calls st)) st,
               [TwilioEventEmitted (mkEvent ended callId (DataCause (Some "hangup") None));
                Settle tok (Resolved VVoid)])
          | Some e => (st, [Settle tok (Rejected e)])
          end
        else (st, [Settle tok (Resolved VVoid)])
    | None => (st, [Settle tok (Resolved VVoid)])
    end.

(** ** The event loop *)

(** The inputs of the event loop. The simulation interval that the service
    starts when the first connection fails calls [simulateIncomingCall], so
    its ticks are [SimulateIncomingCall] inputs. [SocketMessage] is a socket
    read that completes one message, [SocketData] one that completes any
    number of them. *)
Inductive Input :=
(* exported by the asterisk service *)
| MakeCall (tok : nat) (fromNumber toNumber rid : string) (rnd : nat)
| HangupCall (tok : nat) (callId : string)
| AcceptCall (tok : nat) (callId : string)
| RejectCall (tok : nat) (callId : string)
| SimulateIncomingCall (tok : nat) (fromNumber toNumber rid : string) (rnd : nat)
| SendAmiCommand (tok : nat) (command : string) (params : list (string * string))
| Reconnect
| Cleanup
(* socket callbacks *)
| SocketConnected
| SocketError (message : string)
| SocketClosed
| SocketMessage (message : AmiResponse) (rid : string)
| SocketData (messages : list (AmiResponse * string))
(* timers *)
| ReconnectTimerFired
| ActionTimerFired (n : nat)
(* exported by the twilio service *)
| IncomingWebhook (tok : nat) (body : WebhookBody) (rid : string)
| DialStatus (tok : nat) (body : DialBody)
| MakeOutgoingCall (tok : nat) (sdk : string * string * string + string)
| EndTwilioCall (tok : nat) (callId : string) (sdk : option string)
(* the repository's bulk clear *)
| ClearAllCalls.

Definition step (now : Z) (i : Input) (st : State) : State * list Output :=
  match i with
  | MakeCall tok f t rid rnd => makeCall tok f t rid rnd now st
  | HangupCall tok callId => hangupCall tok callId now st
  | AcceptCall tok callId => acceptCall tok callId st
  | RejectCall tok callId => rejectCall tok callId now st
  | SimulateIncomingCall tok f t rid rnd => simulateIncomingCall tok f t rid rnd now st
  | SendAmiCommand tok command params => externalSend tok command params now st
  | Reconnect => reconnect st
  | Cleanup => cleanup st
  | SocketConnected => onConnect now st
  | SocketError message => onError message now st
  | SocketClosed => onClose now st
  | SocketMessage message rid => handleAmiMessage message rid now st
  | SocketData messages => handleData messages now st
  | ReconnectTimerFired => reconnectTimerFired now st
  | ActionTimerFired n =>
      match timers st !! n with
      | Some t =>
          if t_due t <=? now
          then actionTimeoutFired t now (set_timers (delete n (timers st)) st)
          else (st, [])
      | None => (st, [])
      end
  | IncomingWebhook tok body rid => handleIncomingWebhook tok body rid now st
  | DialStatus tok body => handleDialStatus tok body now st
  | MakeOutgoingCall tok sdk => makeOutgoingCall tok sdk now st
  | EndTwilioCall tok callId sdk => endTwilioCall tok callId sdk now st
  | ClearAllCalls => (set_calls (CallRepository.clearAllCalls (calls st)) st, [])
  end.

(** A run: the inputs in the order the event loop takes them, each with the
    clock reading of its handler. *)
Fixpoint run (ins : list (Z * Input)) (st : State) : State * list Output :=
  match ins with
  | [] => (st, [])
  | (now, i) :: rest =>
      let '(st1, out1) := step now i st in
      let '(st2, out2) := run rest st1 in
      (st2, out1 ++ out2)
  end.

(** [createAsteriskService]: the closure variables as initialised, then the
    first [connectToAsterisk()]. *)
Definition initial (cfg : Config) : State :=
  mkState cfg false 0%nat (Some NetSocket) 0%nat ∅ None [] ∅.

(** * Observations, invariants and example states

    What the properties below are stated with: projections of the effects
    of a handler, predicates on states and records, the transition table of
    the specification, and the concrete states and inputs of the examples. *)

(** ** Projections of the effects *)

(** The lifecycle notifications among the effects of a handler. *)
Definition notifications (out : list Output) : list CallEvent :=
  omap (fun o => match o with
                 | CallEventEmitted e | TwilioEventEmitted e => Some e
                 | _ => None
                 end) out.

(** The settled promises among the effects of a handler. *)
Definition settled (out : list Output) : list (nat * Outcome) :=
  omap (fun o => match o with Settle tok r => Some (tok, r) | _ => None end) out.

Definition isWrite (o : Output) : bool :=
  match o with SocketWrite _ => true | _ => false end.

(** The delays of the reconnect timers armed by a run. *)
Definition scheduledDelays (out : list Output) : list Z :=
  omap (fun o => match o with
                 | SetTimeout d ReconnectTimeout => Some d
                 | _ => None
                 end) out.

(** The lines of a frame: the pieces between consecutive CR LF pairs. *)
Fixpoint splitCRLF (s : string) (cur : string) : list string :=
  match s with
  | EmptyString => [cur]
  | String c rest =>
      match rest with
      | String c' rest' =>
          if Ascii.eqb c "013" && Ascii.eqb c' "010"
          then cur :: splitCRLF rest' ""
          else splitCRLF rest (cur +:+ String c "")
      | EmptyString => [cur +:+ String c ""]
      end
  end.

Definition frameLines (frame : string) : list string := splitCRLF frame "".

Definition actionIdLines (frame : string) : list string :=
  filter (fun l => String.prefix "ActionID: " l = true) (frameLines frame).

(** ** The specification's tables *)

(** The keys of the status lookup. *)
Definition mappedTwilioStatuses : list string :=
  ["queued"; "ringing"; "in-progress"; "completed"; "busy"; "no-answer";
   "failed"; "canceled"].

(** The caller-driven events of the transition table and the operation of
    the PBX service behind each. *)
Inductive LifecycleEvent := Accepted | RejectedByUser | HangupRequested.

(** The table's "valid from" column, as the specification words it:
    accepted and rejected from [incoming], hangup from any non-terminal
    state. *)
Definition validFrom (e : LifecycleEvent) (s : CallStatus) : bool :=
  match e with
  | Accepted | RejectedByUser => bool_decide (s = incoming)
  | HangupRequested => negb (bool_decide (s = ended) || bool_decide (s = failed))
  end.

Definition perform (e : LifecycleEvent) (tok : nat) (callId : string) (now : Z)
    (st : State) : State * list Output :=
  match e with
  | Accepted => acceptCall tok callId st
  | RejectedByUser => rejectCall tok callId now st
  | HangupRequested => hangupCall tok callId now st
  end.

(** The back-off sequence the specification gives for base 1 s, cap 30 s. *)
Definition specifiedDelays : list Z :=
  [1000; 2000; 4000; 8000; 16000; 30000; 30000].

(** ** Predicates on call records *)





(** ** Predicates on inputs and runs *)



(** One failed connection attempt at time [t]: the socket reports 'error'
    and then 'close'; the reconnect timer, if one was armed, fires 30 s
    later. *)
Definition failedAttempt (t : Z) : list (Z * Input) :=
  [(t, SocketError "connect ECONNREFUSED"); (t, SocketClosed);
   (t + 30000, ReconnectTimerFired)].

Fixpoint failedAttempts (n : nat) (t : Z) : list (Z * Input) :=
  match n with
  | O => []
  | S m => failedAttempt t ++ failedAttempts m (t + 30000)
  end.

(** ** Predicates on client states *)

(** The state the client stays in: not connected and nothing pending. *)
Definition offline (st : State) : Prop :=
  isConnected st = false ∧ pendingActions st = ∅.

(** The character [x] does not occur in [s]. *)
Fixpoint lacks (x : ascii) (s : string) : bool :=
  match s with
  | EmptyString => true
  | String c rest => negb (Ascii.eqb c x) && lacks x rest
  end.

(** ** Example states and inputs *)

Definition exampleConfig : Config :=
  mkConfig "localhost" 5038 "admin" "asterisk" true.

Definition endedCall : Call :=
  mkCall "c1" "1001" "2000" ended 0 (Some 5000) (Some 5) (Some "SIP/1001-7")
         None asterisk.

Definition storeWithEndedCall : State :=
  set_calls {[ "c1" := endedCall ]} (initial exampleConfig).

Definition cloudCall : Call :=
  mkCall "CA1" "+15550001111" "+15551234567" outgoing 0 None None
         (Some "Twilio/CA1") (Some "CA1") twilio.

Definition ringingCall : Call :=
  mkCall "17.1" "1001" "2000" incoming 0 None None (Some "SIP/1001-1") None asterisk.

Definition storeWithLiveCalls : State :=
  set_calls (<["CA1" := cloudCall]> {[ "17.1" := ringingCall ]}) (initial exampleConfig).

Definition answeredWebhook : WebhookBody :=
  mkWebhook (Some "CA1") "+15550001111" "+15551234567" "in-progress" "outbound-api".

Definition canceledWebhook : WebhookBody :=
  mkWebhook (Some "CA1") "+15550001111" "+15551234567" "canceled" "outbound-api".

Definition answeredEvent : AmiResponse :=
  <["Event" := "Newstate"]> (<["ChannelState" := "6"]> {[ "Uniqueid" := "17.1" ]}).

Definition newchannelEvent : AmiResponse :=
  <["Event" := "Newchannel"]>
    (<["Uniqueid" := "17.1"]>
       (<["CallerIDNum" := "1001"]>
          (<["Exten" := "2000"]> {[ "Channel" := "SIP/1001-0001" ]}))).

Definition hangupEvent : AmiResponse :=
  <["Event" := "Hangup"]> (<["Uniqueid" := "17.1"]> {[ "Cause" := "16" ]}).

(** * The rest of the services

    The functions the properties above did not need: the remaining
    operations of the repository, the parser and the framing of the AMI
    socket, the forwarding of notifications to the socket clients and the
    unified call service. *)

(** ** The repository, continued

    [Array.from(calls.values())] lists the records in the order of their
    insertion; the lists below hold the same records in the order of the
    table, so only their members and their length are meant. *)

Module Repository.

(** What [updateCall] returns: the merged record, or [null]. *)
Definition updateCallResult (i : string) (u : CallUpdate) (calls : gmap string Call)
  : option Call :=
  match calls !! i with
  | Some c => Some (merge c u)
  | None => None
  end.

Definition getAllCalls (calls : gmap string Call) : list Call :=
  map snd (map_to_list calls).

(** [calls.delete(id)]: the table without the record, and whether there
    was one. *)
Definition deleteCall (i : string) (calls : gmap string Call)
  : gmap string Call * bool :=
  (delete i calls, bool_decide (is_Some (calls !! i))).

Definition getCallCount (calls : gmap string Call) : nat := size calls.

End Repository.

(** ** Parsing AMI messages ([parseAmiMessage]) *)

(** White space and line terminators of [String.prototype.trim], among the
    code units below 256. *)
Definition isWhiteSpace (c : ascii) : bool :=
  existsb (Ascii.eqb c)
          ["009"; "010"; "011"; "012"; "013"; "032"; "160"]%char.

Fixpoint trimStart (s : string) : string :=
  match s with
  | EmptyString => EmptyString
  | String c rest => if isWhiteSpace c then trimStart rest else s
  end.

Fixpoint trimEnd (s : string) : string :=
  match s with
  | EmptyString => EmptyString
  | String c rest =>
      match trimEnd rest with
      | EmptyString => if isWhiteSpace c then EmptyString else String c EmptyString
      | rest' => String c rest'
      end
  end.

Definition trim (s : string) : string := trimEnd (trimStart s).

Fixpoint startsWith (needle s : string) : bool :=
  match needle, s with
  | EmptyString, _ => true
  | String a needle', String b s' => Ascii.eqb a b && startsWith needle' s'
  | String _ _, EmptyString => false
  end.

(** [s.indexOf(needle)], [None] for -1. *)
Fixpoint indexOf (needle s : string) : option nat :=
  if startsWith needle s then Some O
  else match s with
       | EmptyString => None
       | String _ rest => option_map S (indexOf needle rest)
       end.

(** [s.substring(0, n)] *)
Fixpoint substringTo (n : nat) (s : string) : string :=
  match n, s with
  | S n', String c rest => String c (substringTo n' rest)
  | _, _ => EmptyString
  end.

(** [s.substring(n)] *)
Fixpoint substringFrom (n : nat) (s : string) : string :=
  match n, s with
  | S n', String _ rest => substringFrom n' rest
  | _, _ => s
  end.

(** The body of the loop over the lines: [result[key] = value] when the
    line has a colon after its first character. An assignment to the key
    [__proto__] of an object literal stores nothing when the value is a
    string. *)
Definition parseLine (result : AmiResponse) (line : string) : AmiResponse :=
  match indexOf ":" line with
  | Some (S i) =>
      let key := trim (substringTo (S i) line) in
      let value := trim (substringFrom (S (S i)) line) in
      if String.eqb key "__proto__" then result else <[key := value]> result
  | _ => result
  end.

(** [data.trim().split('\r\n')], then the loop. *)
Definition parseAmiMessage (data : string) : AmiResponse :=
  fold_left parseLine (splitCRLF (trim data) "") ∅.

(** ** Framing of the socket data (the 'data' callback) *)

Definition messageEnd : string := CRLF +:+ CRLF.

(** The [while] loop of the callback: as long as the buffer holds the blank
    line that ends a message, the message before it is cut off. Every turn
    shortens the buffer, so its length bounds the number of turns. *)
Fixpoint drainBuffer (fuel : nat) (buffer : string) : list string * string :=
  match fuel with
  | O => ([], buffer)
  | S fuel' =>
      match indexOf messageEnd buffer with
      | Some i =>
          let messageData := substringTo i buffer in
          let '(messages, rest) := drainBuffer fuel' (substringFrom (i + 4) buffer) in
          (messageData :: messages, rest)
      | None => ([], buffer)
      end
  end.

(** [buffer += text], then the loop: the complete messages, in the order
    they are handed to [handleAmiMessage], and the buffer that is kept.
    [data] is the text the callback adds to its buffer, [data.toString()]
    of the chunk it was handed ([receiveChunk] below). *)
Definition receive (buffer data : string) : list string * string :=
  drainBuffer (String.length (buffer +:+ data)) (buffer +:+ data).

Definition onData (buffer data : string) : list AmiResponse * string :=
  (map parseAmiMessage (fst (receive buffer data)), snd (receive buffer data)).

(** *** The bytes of a chunk

    No encoding is set on the socket, so the 'data' callback is handed a
    [Buffer], and [data.toString()] decodes the bytes of this one chunk as
    UTF-8: a well-formed sequence gives its character, and every ill-formed
    sequence, also a character that the end of the chunk cuts off, gives
    U+FFFD. The decoded text holds a character beyond ASCII as the bytes
    of its UTF-8 form, so decoding keeps the bytes of a well-formed sequence
    and puts EF BF BD, the form of U+FFFD, for an ill-formed one. The loop
    of the callback looks for CR LF CR LF only and cuts where it finds it,
    so it cuts this text where the callback cuts its string. *)

Definition replacement : string := string_of_list_byte [Byte.xef; Byte.xbf; Byte.xbd].

(** The decoder between two bytes: the bytes seen of the character under
    way, how many are still needed, and the bounds of the next one. *)
Record Utf8State := mkUtf8 {
  seen : string;
  needed : nat;
  lower : N;
  upper : N
}.

Definition idle : Utf8State := mkUtf8 "" 0 128 191.

(** A byte that is not the continuation of a character. *)
Definition lead (b : Byte.byte) : string * Utf8State :=
  let n := Byte.to_N b in
  let c := String (ascii_of_byte b) "" in
  if (n <? 128)%N then (c, idle)
  else if (194 <=? n)%N && (n <=? 223)%N then ("", mkUtf8 c 1 128 191)
  else if (224 <=? n)%N && (n <=? 239)%N then
    ("", mkUtf8 c 2 (if (n =? 224)%N then 160 else 128)%N
                    (if (n =? 237)%N then 159 else 191)%N)
  else if (240 <=? n)%N && (n <=? 244)%N then
    ("", mkUtf8 c 3 (if (n =? 240)%N then 144 else 128)%N
                    (if (n =? 244)%N then 143 else 191)%N)
  else (replacement, idle).

(** One byte: what it adds to the text and the decoder after it. A byte
    that cannot continue the character under way ends it as U+FFFD and is
    looked at again as a first byte. *)
Definition feed (st : Utf8State) (b : Byte.byte) : string * Utf8State :=
  match needed st with
  | O => lead b
  | S n =>
      if (lower st <=? Byte.to_N b)%N && (Byte.to_N b <=? upper st)%N then
        match n with
        | O => (seen st +:+ String (ascii_of_byte b) "", idle)
        | S _ => ("", mkUtf8 (seen st +:+ String (ascii_of_byte b) "") n 128 191)
        end
      else (replacement +:+ (lead b).1, (lead b).2)
  end.

Fixpoint decodeFrom (st : Utf8State) (data : list Byte.byte) : string * Utf8State :=
  match data with
  | [] => ("", st)
  | b :: rest =>
      let '(text1, st1) := feed st b in
      let '(text2, st2) := decodeFrom st1 rest in
      (text1 +:+ text2, st2)
  end.

(** The end of the chunk: a character under way is cut off. *)
Definition flush (st : Utf8State) : string :=
  match needed st with O => "" | S _ => replacement end.

(** [data.toString()] *)
Definition toString (data : list Byte.byte) : string :=
  let '(text, st) := decodeFrom idle data in text +:+ flush st.

(** The 'data' callback on the chunk it is handed. *)
Definition receiveChunk (buffer : string) (data : list Byte.byte) : list string * string :=
  receive buffer (toString data).

(** A chunk that ends between two characters. *)
Definition endsBetweenCharacters (data : list Byte.byte) : Prop :=
  (decodeFrom idle data).2 = idle.

(** ** Forwarding to the socket clients ([socket.service.ts]) *)

(** What [io.emit] sends: the whole event under 'call-event', its [data]
    under the names that depend on the type. *)
Inductive Payload :=
| WholeEvent (e : CallEvent)
| EventPayload (d : EventData).

(** The listener that [setupAsteriskEventForwarding] puts on the 'callEvent'
    of the asterisk service. *)
Definition forwardCallEvent (callEvent : CallEvent) : list (string * Payload) :=
  ("call-event", WholeEvent callEvent)
  :: match ev_type callEvent with
     | incoming => [("incoming-call", EventPayload (ev_data callEvent))]
     | connected => [("call-connected", EventPayload (ev_data callEvent))]
     | ended => [("call-ended", EventPayload (ev_data callEvent))]
     | failed => [("call-failed", EventPayload (ev_data callEvent))]
     | outgoing => []
     end.

(** What the forwarding listener sends to the socket clients in the course
    of a handler, as long as it is attached ([cleanup] of the asterisk
    service removes it): it hangs on the emitter of the asterisk service;
    the emitter of the twilio service has a logging listener only. *)
Definition broadcasts (out : list Output) : list (string * Payload) :=
  flat_map (fun o => match o with
                     | CallEventEmitted e => forwardCallEvent e
                     | _ => []
                     end) out.

(** ** The unified call service ([call.service.ts]) *)

Module CallService.

(** The objects the operations resolve with. *)
Inductive Reply :=
| Initiated (callId message : string) (p : Provider)
| Message (message : string).

Inductive ServiceOutcome :=
| Done (r : Reply)
| Failed (message : string).

Definition providerName (p : Provider) : string :=
  match p with asterisk => "asterisk" | twilio => "twilio" end.

(** How the promise [tok] of the provider service settled in this turn of
    the event loop, if it did. *)
Definition innerOutcome (tok : nat) (out : list Output) : option Outcome :=
  head (omap (fun o => match o with
                       | Settle t r => if (t =? tok)%nat then Some r else None
                       | _ => None
                       end) out).

(** [try { ...; return reply } catch (error) { throw new Error(prefix +
    error.message) }] around an awaited operation of a provider service:
    the outer promise settles when the inner one does. *)
Definition outer (prefix : string) (reply : Value → Reply) (o : option Outcome)
  : option ServiceOutcome :=
  match o with
  | Some (Resolved v) => Some (Done (reply v))
  | Some (Rejected e) => Some (Failed (prefix +:+ e))
  | None => None
  end.

(** The operations of the asterisk service that the call service shadows. *)
Local Abbreviation asteriskAcceptCall := acceptCall.

Local Abbreviation asteriskRejectCall := rejectCall.

Definition callIdOf (v : Value) : string :=
  match v with VCallId i => i | _ => "" end.

Definition initiateCall (tok : nat) (fromNumber toNumber : string)
    (p : option Provider) (rid : string) (rnd : nat)
    (sdk : string * string * string + string) (now : Z) (st : State)
  : State * list Output * option ServiceOutcome :=
  let selectedProvider := determineProvider (mkRequest fromNumber toNumber p) in
  let r := if bool_decide (selectedProvider = twilio)
           then makeOutgoingCall tok sdk now st
           else makeCall tok fromNumber toNumber rid rnd now st in
  (fst r, snd r,
   outer "Failed to initiate call: "
         (fun v => Initiated (callIdOf v)
                     ("Call initiated successfully via " +:+ providerName selectedProvider)
                     selectedProvider)
         (innerOutcome tok (snd r))).

Definition endCall (tok : nat) (callId : string) (sdk : option string) (now : Z)
    (st : State) : State * list Output * option ServiceOutcome :=
  match CallRepository.getCall callId (calls st) with
  | None => (st, [], Some (Failed "Failed to end call: Call not found"))
  | Some call =>
      let r := if bool_decide (provider call = twilio)
               then endTwilioCall tok callId sdk now st
               else hangupCall tok callId now st in
      (fst r, snd r,
       outer "Failed to end call: "
             (fun _ => Message ("Call ended successfully via " +:+ providerName (provider call)))
             (innerOutcome tok (snd r)))
  end.

Definition acceptCall (tok : nat) (callId : string) (st : State)
  : State * list Output * option ServiceOutcome :=
  match CallRepository.getCall callId (calls st) with
  | None => (st, [], Some (Failed "Failed to accept call: Call not found"))
  | Some call =>
      if bool_decide (provider call = asterisk) then
        let r := asteriskAcceptCall tok callId st in
        (fst r, snd r,
         outer "Failed to accept call: " (fun _ => Message "Call accepted successfully")
               (innerOutcome tok (snd r)))
      else
        (st, [],
         Some (Failed "Failed to accept call: Twilio calls are automatically handled by webhooks"))
  end.

Definition rejectCall (tok : nat) (callId : string) (sdk : option string) (now : Z)
    (st : State) : State * list Output * option ServiceOutcome :=
  match CallRepository.getCall callId (calls st) with
  | None => (st, [], Some (Failed "Failed to reject call: Call not found"))
  | Some call =>
      let r := if bool_decide (provider call = asterisk)
               then asteriskRejectCall tok callId now st
               else endTwilioCall tok callId sdk now st in
      (fst r, snd r,
       outer "Failed to reject call: " (fun _ => Message "Call rejected successfully")
             (innerOutcome tok (snd r)))
  end.

End CallService.

(** ** How a handler changes the call table *)

(** The inputs whose handler stores a new record whatever is stored under
    its identifier: the three operations that place or simulate a call and
    the Newchannel event of the PBX. *)
Definition overwrites (i : Input) : bool :=
  match i with
  | MakeCall _ _ _ _ _ | SimulateIncomingCall _ _ _ _ _ | MakeOutgoingCall _ _ => true
  | SocketMessage message _ => fieldIs message "Event" "Newchannel"
  | SocketData messages =>
      existsb (fun m => fieldIs m.1 "Event" "Newchannel") messages
  | _ => false
  end.

(** The inputs whose handler runs with no other handler under way: all but
    a socket read that completes more than one message. *)
Definition runsAlone (i : Input) : bool :=
  match i with
  | SocketData messages => (List.length messages <=? 1)%nat
  | _ => true
  end.

Definition isClear (i : Input) : bool :=
  match i with ClearAllCalls => true | _ => false end.

(** One write to the table by the handlers of an input: nothing, one
    [createCall] (under a new identifier unless the input overwrites), one
    [updateCall] of a stored record, or the bulk clear. The handlers of a
    socket read with several messages write several times. *)
Inductive storeChange (i : Input) (m : gmap string Call) : gmap string Call → Prop :=
| sc_same : storeChange i m m
| sc_create c :
    overwrites i = true ∨ m !! id c = None → storeChange i m (<[id c := c]> m)
| sc_update k c u :
    m !! k = Some c → storeChange i m (<[k := merge c u]> m)
| sc_clear : i = ClearAllCalls → storeChange i m ∅.

(** The fields no update names. *)
Definition sameIdentity (c c' : Call) : Prop :=
  id c' = id c ∧ from c' = from c ∧ to c' = to c ∧ startTime c' = startTime c
  ∧ channel c' = channel c ∧ twilioCallSid c' = twilioCallSid c
  ∧ provider c' = provider c.

(** ** Promises and states of the examples *)

(** The promise an exported operation returns to its caller. *)
Definition promiseOf (i : Input) : option nat :=
  match i with
  | MakeCall tok _ _ _ _ | HangupCall tok _ | AcceptCall tok _ | RejectCall tok _
  | SimulateIncomingCall tok _ _ _ _ | SendAmiCommand tok _ _
  | IncomingWebhook tok _ _ | DialStatus tok _ | MakeOutgoingCall tok _
  | EndTwilioCall tok _ _ => Some tok
  | _ => None
  end.

(** The operations of the twilio service. *)
Definition cloudOperation (i : Input) : bool :=
  match i with
  | IncomingWebhook _ _ _ | DialStatus _ _ | MakeOutgoingCall _ _
  | EndTwilioCall _ _ _ => true
  | _ => false
  end.

Definition allowedDelays : list Z := [2000; 4000; 8000; 16000].

Definition ringingWebhook : WebhookBody :=
  mkWebhook (Some "CA1") "+15550001111" "+15551234567" "ringing" "outbound-api".

Definition initiatedWebhook : WebhookBody :=
  mkWebhook (Some "CA1") "+15550001111" "+15551234567" "initiated" "outbound-api".

(** ** Fields that survive the wire *)

(** No white space at either end. *)
Definition trimmed (s : string) : bool :=
  String.eqb (trimStart s) s && String.eqb (trimEnd s) s.

(** A value as a line can carry it: not empty, no white space at either
    end, no carriage return. *)
Definition cleanValue (v : string) : bool :=
  negb (String.eqb v "") && trimmed v && lacks CR v.

(** A key: a clean value without a colon that is not [__proto__]. *)
Definition cleanKey (k : string) : bool :=
  cleanValue k && lacks ":" k && negb (String.eqb k "__proto__").

(** The object with the given fields, assigned in their order. *)
Definition asObject (fields : list (string * string)) : AmiResponse :=
  fold_left (fun m p => <[p.1 := p.2]> m) fields ∅.

(** A message as it travels on the AMI socket: one line per field, as
    [sendAmiCommand] writes its parameters, then the blank line. *)
Definition wire (fields : list (string * string)) : string :=
  String.concat "" (map paramLine fields) +:+ CRLF.

(** What makes a list of lines survive the framing and the split: no line
    is empty, holds a carriage return or ends in white space. *)
Definition goodLine (l : string) : Prop :=
  l ≠ "" ∧ lacks CR l = true ∧ trimEnd l = l.

(** ** What a socket read does to the call table *)

(** One write of a handler started by a socket read, on a client that is
    not connected: [handleIncomingCall] stores a new incoming record,
    [handleCallHangup] ends a call, [handleCallConnected] connects one;
    each for a message of the read that bears the event's name. *)
Inductive tableChange (messages : list (AmiResponse * string)) (now : Z)
  : gmap string Call → gmap string Call → Prop :=
| tc_incoming event rid c m :
    (event, rid) ∈ messages → fieldIs event "Event" "Newchannel" = true →
    status c = incoming → endTime c = None → duration c = None →
    tableChange messages now m (<[id c := c]> m)
| tc_hangup event rid k d m :
    (event, rid) ∈ messages → fieldIs event "Event" "Hangup" = true →
    tableChange messages now m
                (CallRepository.updateCall k (endedUpdate now (Some d)) m)
| tc_connected event rid k m :
    (event, rid) ∈ messages → fieldIs event "Event" "Newstate" = true →
    fieldIs event "ChannelState" "6" = true →
    tableChange messages now m
                (CallRepository.updateCall k (statusUpdate connected) m).

(** A notification of the PBX service. *)
Definition isCallEvent (o : Output) : Prop := ∃ e, o = CallEventEmitted e.

(** What a read on a client that is not connected can leave at an [await]. *)
Definition eventTask (messages : list (AmiResponse * string)) (t : Task) : Prop :=
  match t with
  | TEmit out => Forall isCallEvent out
  | THangup event _ =>
      ∃ rid, (event, rid) ∈ messages ∧ fieldIs event "Event" "Hangup" = true
  | TConnected event _ =>
      ∃ rid, (event, rid) ∈ messages ∧ fieldIs event "Event" "Newstate" = true
             ∧ fieldIs event "ChannelState" "6" = true
  | TResume _ _ => False
  end.

(** A task that only emits. *)
Definition isEmit (t : Task) : Prop := ∃ out, t = TEmit out.

(** * Properties *)

(** ** Status lookup *)

(** C4, as stated, fails: a busy cloud call is mapped to [ended], not to
    [failed]. *)
Lemma mapTwilioStatus_busy_not_failed :
  mapTwilioStatusToCallStatus "busy" ≠ failed.
Proof. discriminate. Qed.

(** C4 (amended): the lookup sends the provider-reported failure statuses
    busy, no-answer and failed to [ended] (like completed and canceled),
    and every status outside its eight cases to [failed]. *)
Theorem mapTwilioStatus_table :
  mapTwilioStatusToCallStatus "busy" = ended
  ∧ mapTwilioStatusToCallStatus "no-answer" = ended
  ∧ mapTwilioStatusToCallStatus "failed" = ended
  ∧ mapTwilioStatusToCallStatus "completed" = ended
  ∧ mapTwilioStatusToCallStatus "canceled" = ended
  ∧ ∀ s, s ∉ mappedTwilioStatuses → mapTwilioStatusToCallStatus s = failed.
Proof.
  repeat split; try reflexivity.
  intros s Hs. unfold mapTwilioStatusToCallStatus.
  repeat match goal with
  | |- context [String.eqb s ?k] =>
      destruct (String.eqb_spec s k) as [->|_];
      [exfalso; apply Hs; unfold mappedTwilioStatuses; set_solver|]
  end.
  reflexivity.
Qed.

Lemma mapTwilioStatus_table_witness :
  mapTwilioStatusToCallStatus "initiated" = failed.
Proof.
  apply (proj2 (proj2 (proj2 (proj2 (proj2 mapTwilioStatus_table))))).
  unfold mappedTwilioStatuses. intros H.
  repeat (apply elem_of_cons in H as [H|H]; [discriminate H|]).
  by apply elem_of_nil in H.
Defined.

(** ** Provider router *)

Lemma prefix_plus (s : string) :
  String.prefix "+" s = true ↔ ∃ rest, s = String "+"%char rest.
Proof.
  rewrite String.prefix_correct. destruct s as [|a s]; simpl.
  - split; [discriminate|intros [? ?]; discriminate].
  - assert (String.substring 0 0 s = "") as -> by (by destruct s).
    split.
    + intros [= ->]. eauto.
    + intros [rest [= -> _]]. reflexivity.
Qed.

(** C5: the router gives one backend for every request: the named backend
    if the request names one; otherwise twilio when the destination begins
    with '+' or has more than 6 characters, and asterisk for every other
    destination. *)
Theorem determineProvider_spec (request : CallRequest) :
  (∃ b, determineProvider request = b
        ∧ ∀ b', determineProvider request = b' → b' = b)
  ∧ (∀ p, req_provider request = Some p → determineProvider request = p)
  ∧ (req_provider request = None →
     ((∃ rest, req_to request = String "+"%char rest)
      ∨ (6 < String.length (req_to request))%nat) →
     determineProvider request = twilio)
  ∧ (req_provider request = None →
     ¬ ((∃ rest, req_to request = String "+"%char rest)
        ∨ (6 < String.length (req_to request))%nat) →
     determineProvider request = asterisk)
  ∧ determineProvider (mkRequest (req_from request) "+15551234567" None) = twilio
  ∧ determineProvider (mkRequest (req_from request) "2000" None) = asterisk
  ∧ determineProvider (mkRequest (req_from request) "2000" (Some twilio)) = twilio.
Proof.
  split; [eauto|].
  split; [intros p Hp; unfold determineProvider; by rewrite Hp|].
  unfold determineProvider.
  repeat split; try reflexivity.
  - intros -> [Hplus|Hlen].
    + apply prefix_plus in Hplus. by rewrite Hplus.
    + apply Nat.ltb_lt in Hlen. rewrite Hlen. by rewrite orb_true_r.
  - intros -> Hno.
    destruct (String.prefix "+" (req_to request)) eqn:Hp.
    + exfalso. apply Hno. left. by apply prefix_plus.
    + destruct (6 <? String.length (req_to request))%nat eqn:Hl; [|reflexivity].
      exfalso. apply Hno. right. by apply Nat.ltb_lt.
Qed.

Lemma determineProvider_spec_witness :
  determineProvider (mkRequest "1001" "+15551234567" None) = twilio
  ∧ determineProvider (mkRequest "1001" "2000" None) = asterisk
  ∧ determineProvider (mkRequest "1001" "2000" (Some twilio)) = twilio
  ∧ determineProvider (mkRequest "1001" "5551234" None) = twilio.
Proof.
  pose proof (determineProvider_spec (mkRequest "1001" "+15551234567" None))
    as (_ & _ & Hcloud & _).
  pose proof (determineProvider_spec (mkRequest "1001" "2000" None))
    as (_ & _ & _ & Hpbx & _).
  pose proof (determineProvider_spec (mkRequest "1001" "2000" (Some twilio)))
    as (_ & Hnamed & _).
  pose proof (determineProvider_spec (mkRequest "1001" "5551234" None))
    as (_ & _ & Hlong & _).
  split; [|split; [|split]].
  - apply Hcloud; [reflexivity|]. left. by eexists.
  - apply Hpbx; [reflexivity|]. simpl. intros [[rest Hr]|Hl]; [discriminate|lia].
  - by apply Hnamed.
  - apply Hlong; [reflexivity|]. right. simpl. lia.
Defined.

(** ** Rejected transitions *)

(** C1, as stated, fails: [hangupCall] on a call that has already ended is
    not refused; it finalises the record again with a new end time. *)
Lemma hangup_of_ended_call_not_refused :
  calls storeWithEndedCall !! "c1" = Some endedCall
  ∧ validFrom HangupRequested (status endedCall) = false
  ∧ (∀ message,
       snd (perform HangupRequested 1 "c1" 9000 storeWithEndedCall)
       ≠ [Settle 1 (Rejected message)])
  ∧ calls (fst (perform HangupRequested 1 "c1" 9000 storeWithEndedCall)) !! "c1"
    = Some (mkCall "c1" "1001" "2000" ended 0 (Some 9000) (Some 9)
                   (Some "SIP/1001-7") None asterisk)
  ∧ calls (fst (perform HangupRequested 1 "c1" 9000 storeWithEndedCall)) !! "c1"
    ≠ calls storeWithEndedCall !! "c1".
Proof.
  split; [reflexivity|]. split; [reflexivity|].
  split; [intros message; vm_compute; discriminate|].
  split; [reflexivity|]. vm_compute. discriminate.
Qed.

(** C1 (amended): [acceptCall] and [rejectCall] on a stored call whose
    status is not [incoming] fail with "Call is not in incoming state" and
    leave the whole state, the call table included, as it was, with no
    notification. [hangupCall] fails with "Call not found or no channel",
    the state unchanged, for a call that is not stored or has no channel. *)
Theorem invalid_transition_unchanged (st : State) (callId : string) (tok : nat)
    (now : Z) :
  (∀ c, calls st !! callId = Some c → status c ≠ incoming →
        acceptCall tok callId st
        = (st, [Settle tok (Rejected "Call is not in incoming state")])
        ∧ rejectCall tok callId now st
          = (st, [Settle tok (Rejected "Call is not in incoming state")]))
  ∧ ((calls st !! callId = None
      ∨ ∃ c, calls st !! callId = Some c ∧ truthy (channel c) = false) →
     hangupCall tok callId now st
     = (st, [Settle tok (Rejected "Call not found or no channel")])).
Proof.
  split.
  - intros c Hc Hs. unfold acceptCall, rejectCall, CallRepository.getCall.
    rewrite Hc. rewrite bool_decide_eq_false_2 by done. done.
  - unfold hangupCall, CallRepository.getCall.
    intros [->|(c & -> & ->)]; reflexivity.
Qed.

Lemma invalid_transition_unchanged_witness :
  acceptCall 1 "c1" storeWithEndedCall
  = (storeWithEndedCall, [Settle 1 (Rejected "Call is not in incoming state")])
  ∧ rejectCall 1 "c1" 9000 storeWithEndedCall
    = (storeWithEndedCall, [Settle 1 (Rejected "Call is not in incoming state")])
  ∧ hangupCall 1 "c2" 9000 storeWithEndedCall
    = (storeWithEndedCall, [Settle 1 (Rejected "Call not found or no channel")]).
Proof.
  destruct (invalid_transition_unchanged storeWithEndedCall "c1" 1 9000) as [H _].
  destruct (invalid_transition_unchanged storeWithEndedCall "c2" 1 9000) as [_ H'].
  destruct (H endedCall) as [Ha Hr]; [reflexivity|discriminate|].
  split; [exact Ha|]. split; [exact Hr|].
  apply H'. left. reflexivity.
Defined.

(** ** Repeated status updates *)

Lemma orElse_truthy (o : option string) (d : string) :
  truthy o = true → orElse o d = default "" o.
Proof. unfold orElse. intros H. rewrite H. destruct o; [done|discriminate]. Qed.

Lemma updateCall_lookup (i : string) (u : CallUpdate) (m : gmap string Call) (c : Call) :
  m !! i = Some c → CallRepository.updateCall i u m !! i = Some (merge c u).
Proof.
  intros H. unfold CallRepository.updateCall. rewrite H.
  by rewrite lookup_insert_eq.
Qed.

Lemma webhook_same_status (st : State) (body : WebhookBody) (c : Call)
    (tok : nat) (rid : string) (now : Z) :
  truthy (CallSid body) = true →
  calls st !! default "" (CallSid body) = Some c →
  mapTwilioStatusToCallStatus (CallStatus_ body) = status c →
  handleIncomingWebhook tok body rid now st
  = (st, [Settle tok (Resolved (VCallId (default "" (CallSid body))))]).
Proof.
  intros Ht Hc Hm. unfold handleIncomingWebhook, CallRepository.getCall.
  rewrite (orElse_truthy _ _ Ht), Hc, Hm.
  by rewrite bool_decide_eq_true_2.
Qed.

Lemma webhook_new_status (st : State) (body : WebhookBody) (c : Call)
    (tok : nat) (rid : string) (now : Z) :
  truthy (CallSid body) = true →
  calls st !! default "" (CallSid body) = Some c →
  mapTwilioStatusToCallStatus (CallStatus_ body) ≠ status c →
  ∃ c' e,
    handleIncomingWebhook tok body rid now st
    = (set_calls (<[default "" (CallSid body) := c']> (calls st)) st,
       [TwilioEventEmitted e; Settle tok (Resolved (VCallId (default "" (CallSid body))))])
    ∧ status c' = mapTwilioStatusToCallStatus (CallStatus_ body).
Proof.
  intros Ht Hc Hm. unfold handleIncomingWebhook, CallRepository.getCall.
  rewrite (orElse_truthy _ _ Ht), Hc.
  rewrite bool_decide_eq_false_2 by done. simpl.
  unfold CallRepository.updateCall. rewrite Hc.
  eexists _, _. split; [reflexivity|].
  by destruct (isFinalTwilioStatus (CallStatus_ body)).
Qed.

Lemma answered_event_step (event : AmiResponse) (st : State) (c : Call)
    (rid : string) (now : Z) :
  event !! "ActionID" = None →
  fieldIs event "Event" "Newstate" = true →
  fieldIs event "ChannelState" "6" = true →
  truthy (event !! "Uniqueid") = true →
  calls st !! default "" (event !! "Uniqueid") = Some c →
  step now (SocketMessage event rid) st
  = if negb (bool_decide (status c = connected)) then
      (set_calls (CallRepository.updateCall (default "" (event !! "Uniqueid"))
                    (statusUpdate connected) (calls st)) st,
       [CallEventEmitted (mkEvent connected (default "" (event !! "Uniqueid"))
                                  (DataChannel (event !! "Channel")))])
    else (st, []).
Proof.
  intros Hid Hev Hstate Hu Hc. cbn [step]. unfold handleAmiMessage.
  rewrite Hid. cbn [truthy].
  assert (truthy (event !! "Event") = true) as ->.
  { unfold fieldIs in Hev. destruct (event !! "Event") as [v|]; [|done].
    apply String.eqb_eq in Hev as ->. reflexivity. }
  unfold handleAmiEvent.
  assert (fieldIs event "Event" "Newchannel" = false) as ->.
  { unfold fieldIs in *. destruct (event !! "Event") as [v|]; [|done].
    apply String.eqb_eq in Hev as ->. reflexivity. }
  assert (fieldIs event "Event" "Hangup" = false) as ->.
  { unfold fieldIs in *. destruct (event !! "Event") as [v|]; [|done].
    apply String.eqb_eq in Hev as ->. reflexivity. }
  rewrite Hev, Hstate. unfold handleCallConnected, CallRepository.getCall.
  by rewrite Hu, Hc.
Qed.

(** X26: a status update that is handled alone (a webhook request, or an
    answered channel-state event that is the only message of its socket
    read) and maps to the current status of the stored call changes nothing
    and emits no notification; hence a second delivery of the same update,
    handled after the first, is always silent, and two such deliveries of
    an update that changes the status emit one notification together. Two
    answered events in one read are another matter: their handlers
    interleave. *)
Theorem repeated_status_update_silent (st : State) (c : Call) (rid : string)
    (now : Z) :
  (∀ body tok,
     truthy (CallSid body) = true →
     calls st !! default "" (CallSid body) = Some c →
     let r1 := step now (IncomingWebhook tok body rid) st in
     (mapTwilioStatusToCallStatus (CallStatus_ body) = status c →
      fst r1 = st ∧ notifications (snd r1) = [])
     ∧ ∀ tok' rid' now',
         let r2 := step now' (IncomingWebhook tok' body rid') (fst r1) in
         fst r2 = fst r1 ∧ notifications (snd r2) = []
         ∧ (mapTwilioStatusToCallStatus (CallStatus_ body) ≠ status c →
            List.length (notifications (snd r1 ++ snd r2)) = 1%nat))
  ∧ (∀ event,
       event !! "ActionID" = None →
       fieldIs event "Event" "Newstate" = true →
       fieldIs event "ChannelState" "6" = true →
       truthy (event !! "Uniqueid") = true →
       calls st !! default "" (event !! "Uniqueid") = Some c →
       let r1 := step now (SocketMessage event rid) st in
       (status c = connected → r1 = (st, []))
       ∧ ∀ rid' now',
           let r2 := step now' (SocketMessage event rid') (fst r1) in
           r2 = (fst r1, [])
           ∧ (status c ≠ connected →
              List.length (notifications (snd r1 ++ snd r2)) = 1%nat)).
Proof.
  split.
  - intros body tok Ht Hc r1. subst r1. cbn [step].
    destruct (decide (mapTwilioStatusToCallStatus (CallStatus_ body) = status c))
      as [Heq|Hne].
    + rewrite (webhook_same_status st body c tok rid now Ht Hc Heq). simpl.
      split; [done|]. intros tok' rid' now'.
      rewrite (webhook_same_status st body c tok' rid' now' Ht Hc Heq). simpl.
      split; [done|]. split; [done|]. intros; contradiction.
    + destruct (webhook_new_status st body c tok rid now Ht Hc Hne)
        as (c' & e & -> & Hs).
      simpl. split; [intros; contradiction|]. intros tok' rid' now'.
      rewrite (webhook_same_status _ body c' tok' rid' now' Ht); simpl;
        [done|by rewrite lookup_insert_eq|done].
  - intros event Hid Hev Hstate Hu Hc r1. subst r1.
    rewrite (answered_event_step event st c rid now) by done.
    destruct (decide (status c = connected)) as [Heq|Hne].
    + rewrite bool_decide_eq_true_2 by done. cbn [negb fst snd]. split; [done|].
      intros rid' now'. cbv zeta.
      rewrite (answered_event_step event st c rid' now') by done.
      rewrite bool_decide_eq_true_2 by done. cbn [negb]. split; [done|].
      intros; contradiction.
    + rewrite bool_decide_eq_false_2 by done. cbn [negb fst snd].
      split; [intros; contradiction|].
      intros rid' now'. cbv zeta.
      erewrite answered_event_step; [|done..|simpl; by apply updateCall_lookup].
      rewrite bool_decide_eq_true_2 by done. done.
Qed.

Lemma repeated_status_update_silent_witness :
  (let r1 := step 1000 (IncomingWebhook 1 answeredWebhook "r1") storeWithLiveCalls in
   let r2 := step 2000 (IncomingWebhook 2 answeredWebhook "r2") (fst r1) in
   fst r2 = fst r1 ∧ notifications (snd r2) = []
   ∧ List.length (notifications (snd r1 ++ snd r2)) = 1%nat)
  ∧ (let r1 := step 1000 (SocketMessage answeredEvent "r1") storeWithLiveCalls in
     let r2 := step 2000 (SocketMessage answeredEvent "r2") (fst r1) in
     r2 = (fst r1, [])
     ∧ List.length (notifications (snd r1 ++ snd r2)) = 1%nat).
Proof.
  split.
  - destruct (repeated_status_update_silent storeWithLiveCalls cloudCall "r1" 1000)
      as [H _].
    destruct (H answeredWebhook 1%nat eq_refl eq_refl) as [_ H2].
    destruct (H2 2%nat "r2" 2000) as (Hst & Hsilent & Hone).
    split; [exact Hst|]. split; [exact Hsilent|]. apply Hone. discriminate.
  - destruct (repeated_status_update_silent storeWithLiveCalls ringingCall "r1" 1000)
      as [_ H].
    destruct (H answeredEvent eq_refl eq_refl eq_refl eq_refl eq_refl) as [_ H2].
    destruct (H2 "r2" 2000) as [Hsilent Hone].
    split; [exact Hsilent|]. apply Hone. discriminate.
Defined.

(** ** Socket reads *)

Lemma runAll_keeps (P : State → Prop) (Q : Output → Prop) (T : Task → Prop)
    (stretches : list (Z → State → State * list Output * list Task))
    (now : Z) (st : State) :
  P st →
  Forall (fun stretch => ∀ s, P s → P (stretch now s).1.1
                                    ∧ Forall Q (stretch now s).1.2
                                    ∧ Forall T (stretch now s).2) stretches →
  P (runAll stretches now st).1.1
  ∧ Forall Q (runAll stretches now st).1.2
  ∧ Forall T (runAll stretches now st).2.
Proof.
  intros HP Hall. revert st HP.
  induction Hall as [|stretch rest Hs _ IH]; intros st HP; [done|].
  cbn [runAll]. destruct (Hs st HP) as (H1 & H2 & H3).
  destruct (stretch now st) as [[st1 out1] queued1]. cbn [fst snd] in *.
  destruct (IH st1 H1) as (H4 & H5 & H6).
  destruct (runAll rest now st1) as [[st2 out2] queued2]. cbn [fst snd] in *.
  split; [done|]. split; by apply Forall_app.
Qed.

(** What every stretch of a read keeps, the read keeps. *)
Lemma handleData_keeps (P : State → Prop) (Q : Output → Prop) (T : Task → Prop)
    (messages : list (AmiResponse * string)) (now : Z) (st : State) :
  P st →
  (∀ m, m ∈ messages → ∀ s, P s →
     P (startAmiMessage m.1 m.2 now s).1.1
     ∧ Forall Q (startAmiMessage m.1 m.2 now s).1.2
     ∧ Forall T (startAmiMessage m.1 m.2 now s).2) →
  (∀ t, T t → ∀ s, P s →
     P (runTask t now s).1.1 ∧ Forall Q (runTask t now s).1.2
     ∧ Forall T (runTask t now s).2) →
  P (handleData messages now st).1 ∧ Forall Q (handleData messages now st).2.
Proof.
  intros HP Hstart Htask.
  assert (∀ queue s, P s → Forall T queue →
            P (runRound queue now s).1.1 ∧ Forall Q (runRound queue now s).1.2
            ∧ Forall T (runRound queue now s).2) as Hround.
  { intros queue s Hs Hq. apply (runAll_keeps P Q T); [done|].
    apply Forall_map. eapply Forall_impl; [exact Hq|]. intros t Ht. by apply Htask. }
  unfold handleData.
  destruct (runAll_keeps P Q T (map (fun m => startAmiMessage m.1 m.2) messages) now st HP)
    as (H1 & H2 & H3).
  { apply Forall_map. apply Forall_forall. intros m Hm. by apply Hstart. }
  fold (startAll messages now st) in H1, H2, H3.
  destruct (startAll messages now st) as [[st0 out0] queue0]. cbn [fst snd] in *.
  destruct (Hround queue0 st0 H1 H3) as (H4 & H5 & H6).
  destruct (runRound queue0 now st0) as [[st1 out1] queue1]. cbn [fst snd] in *.
  destruct (Hround queue1 st1 H4 H6) as (H7 & H8 & _).
  destruct (runRound queue1 now st1) as [[st2 out2] queue2]. cbn [fst snd] in *.
  split; [done|]. by rewrite !Forall_app.
Qed.

(** The second turn through the queue leaves it empty: every handler is
    through by then. *)
Lemma handleData_queue_empty (messages : list (AmiResponse * string)) (now : Z)
    (st : State) :
  let r0 := startAll messages now st in
  let r1 := runRound r0.2 now r0.1.1 in
  (runRound r1.2 now r1.1.1).2 = [].
Proof.
  assert (∀ queue s, Forall isEmit (runRound queue now s).2) as Hemit.
  { intros queue s.
    apply (runAll_keeps (fun _ => True) (fun _ => True) isEmit); [done|].
    apply Forall_map, Forall_forall. intros t _ s' _. split; [done|]. split.
    - apply Forall_forall. done.
    - destruct t as [out|event [c|]|event [c|]|k message]; cbn [runTask];
        repeat match goal with
        | |- context [if ?b then _ else _] => destruct b
        end; cbn [snd]; repeat constructor; by eexists. }
  assert (∀ queue s, Forall isEmit queue → (runRound queue now s).2 = []) as Hdone.
  { intros queue s Hq. revert s. induction Hq as [|t rest [out ->] _ IH]; intros s; [done|].
    unfold runRound in *. cbn [map runAll runTask].
    specialize (IH s). destruct (runAll (map runTask rest) now s) as [[s2 out2] q2].
    cbn [snd] in *. by rewrite IH. }
  cbv zeta. apply Hdone, Hemit.
Qed.

(** A read that completes one message is the handling of that message. *)
Lemma startAmiEvent_alone (event : AmiResponse) (rid : string) (now : Z) (st : State) :
  let r0 := startAmiEvent event rid now st in
  let r1 := runRound r0.2 now r0.1.1 in
  let r2 := runRound r1.2 now r1.1.1 in
  (r2.1.1, r0.1.2 ++ r1.1.2 ++ r2.1.2) = handleAmiEvent event rid now st.
Proof.
  cbv zeta. unfold startAmiEvent, handleAmiEvent.
  destruct (fieldIs event "Event" "Newchannel").
  { by destruct (_ && _). }
  destruct (fieldIs event "Event" "Hangup").
  { unfold handleCallHangup. destruct (truthy (event !! "Uniqueid")); [|done].
    by destruct (CallRepository.getCall _ _). }
  destruct (fieldIs event "Event" "Newstate"); [|done].
  unfold handleCallConnected.
  destruct (fieldIs event "ChannelState" "6"); [|done].
  destruct (truthy (event !! "Uniqueid")); [|done]. cbn [andb].
  destruct (CallRepository.getCall _ _) as [c|]; [|done].
  unfold runRound. cbn [map runAll runTask fst snd].
  by destruct (negb (bool_decide (status c = connected))).
Qed.

Lemma handleData_single (message : AmiResponse) (rid : string) (now : Z) (st : State) :
  handleData [(message, rid)] now st = handleAmiMessage message rid now st.
Proof.
  assert (∀ r0 : State * list Output * list Task,
            (let '(st0, out0, queue0) := r0 in
             let '(st1, out1, queue1) := runRound queue0 now st0 in
             let '(st2, out2, _) := runRound queue1 now st1 in
             (st2, out0 ++ out1 ++ out2))
            = ((runRound (runRound r0.2 now r0.1.1).2 now
                         (runRound r0.2 now r0.1.1).1.1).1.1,
               r0.1.2 ++ (runRound r0.2 now r0.1.1).1.2
                 ++ (runRound (runRound r0.2 now r0.1.1).2 now
                              (runRound r0.2 now r0.1.1).1.1).1.2)) as Hlet.
  { intros [[st0 out0] queue0]. cbn [fst snd].
    destruct (runRound queue0 now st0) as [[st1 out1] queue1]. cbn [fst snd].
    by destruct (runRound queue1 now st1) as [[st2 out2] queue2]. }
  assert (startAll [(message, rid)] now st = startAmiMessage message rid now st) as Hstart.
  { unfold startAll. cbn [map runAll fst snd].
    destruct (startAmiMessage message rid now st) as [[s o] q].
    by rewrite !app_nil_r. }
  unfold handleData. rewrite Hlet, Hstart. clear Hlet Hstart.
  pose proof (startAmiEvent_alone message rid now st) as Hev. cbv zeta in Hev.
  unfold handleAmiMessage, startAmiMessage.
  destruct (truthy (message !! "ActionID")).
  - destruct (pendingActions st !! default "" (message !! "ActionID")) as [k|].
    + set (st1 := set_pendingActions _ st).
      destruct k; cbn [fst snd]; unfold runRound; cbn [map runAll runTask fst snd];
        try destruct (awaitsRepository _ _);
        destruct (resume _ (inl message) now st1) as [s o];
        cbn [map runAll runTask fst snd app]; by rewrite ?app_nil_r.
    + by destruct (truthy (message !! "Event")).
  - by destruct (truthy (message !! "Event")).
Qed.

(** On a client that is not connected a read only writes to the call
    table, one [tableChange] after the other, and only emits
    notifications. *)
Lemma handleData_offline (messages : list (AmiResponse * string)) (now : Z)
    (st : State) :
  offline st →
  ∃ m' out,
    handleData messages now st = (set_calls m' st, out)
    ∧ rtc (tableChange messages now) (calls st) m'
    ∧ Forall isCallEvent out.
Proof.
  intros [Hc Hp].
  set (P := fun s => ∃ m', s = set_calls m' st
                           ∧ rtc (tableChange messages now) (calls st) m').
  destruct (handleData_keeps P isCallEvent (eventTask messages) messages now st)
    as [(m' & Hst & Hrtc) Hout].
  - exists (calls st). split; [by destruct st|done].
  - intros [event rid] Hin s (m1 & -> & Hrtc). cbn [fst snd].
    unfold startAmiMessage. cbn [pendingActions set_calls]. rewrite Hp, lookup_empty.
    assert (P (startAmiEvent event rid now (set_calls m1 st)).1.1
            ∧ Forall isCallEvent (startAmiEvent event rid now (set_calls m1 st)).1.2
            ∧ Forall (eventTask messages) (startAmiEvent event rid now (set_calls m1 st)).2)
      as Hev.
    { unfold startAmiEvent, handleIncomingCall.
      destruct (fieldIs event "Event" "Newchannel") eqn:Hnew.
      { destruct (_ && _); cbn [fst snd]; (split; [|split; repeat constructor]).
        - eexists. split; [reflexivity|]. eapply rtc_r; [exact Hrtc|].
          cbn [calls set_calls]. unfold CallRepository.createCall.
          by eapply (tc_incoming _ _ event rid).
        - eexists. reflexivity.
        - by exists m1. }
      destruct (fieldIs event "Event" "Hangup") eqn:Hhang.
      { destruct (truthy (event !! "Uniqueid")); cbn [fst snd];
          (split; [by exists m1|]); split; repeat constructor.
        by exists rid. }
      destruct (fieldIs event "Event" "Newstate") eqn:Hstate.
      { destruct (fieldIs event "ChannelState" "6") eqn:Hsix;
          destruct (truthy (event !! "Uniqueid")); cbn [andb fst snd];
          (split; [by exists m1|]); split; repeat constructor.
        by exists rid. }
      cbn [fst snd]. split; [by exists m1|]. split; constructor. }
    destruct (truthy (event !! "ActionID")), (truthy (event !! "Event"));
      try exact Hev; (split; [by exists m1|]); split; constructor.
  - intros t Ht s (m1 & -> & Hrtc).
    destruct t as [out|event [c|]|event [c|]|k message]; cbn [runTask eventTask] in *;
      try done.
    + split; [by exists m1|]. split; [done|constructor].
    + destruct Ht as (rid & Hin & Hev). cbn [fst snd calls set_calls].
      split; [|split; repeat constructor; by eexists].
      eexists. split; [reflexivity|]. eapply rtc_r; [exact Hrtc|].
      by eapply (tc_hangup _ _ event rid).
    + split; [by exists m1|]. split; constructor.
    + destruct Ht as (rid & Hin & Hev & Hsix).
      destruct (negb (bool_decide (status c = connected))); cbn [fst snd calls set_calls].
      * split; [|split; repeat constructor; by eexists].
        eexists. split; [reflexivity|]. eapply rtc_r; [exact Hrtc|].
        by eapply (tc_connected _ _ event rid).
      * split; [by exists m1|]. split; constructor.
    + split; [by exists m1|]. split; constructor.
  - exists m'. destruct (handleData messages now st) as [s out]. cbn [fst snd] in *.
    exists out. by rewrite Hst.
Qed.

Lemma answered_event_start (event : AmiResponse) (st : State) (c : Call)
    (rid : string) (now : Z) :
  event !! "ActionID" = None →
  fieldIs event "Event" "Newstate" = true →
  fieldIs event "ChannelState" "6" = true →
  truthy (event !! "Uniqueid") = true →
  calls st !! default "" (event !! "Uniqueid") = Some c →
  startAmiMessage event rid now st = (st, [], [TConnected event (Some c)]).
Proof.
  intros Hid Hev Hstate Hu Hc. unfold startAmiMessage.
  rewrite Hid. cbn [truthy].
  assert (truthy (event !! "Event") = true) as ->.
  { unfold fieldIs in Hev. destruct (event !! "Event") as [v|]; [|done].
    apply String.eqb_eq in Hev as ->. reflexivity. }
  unfold startAmiEvent.
  assert (fieldIs event "Event" "Newchannel" = false) as ->.
  { unfold fieldIs in *. destruct (event !! "Event") as [v|]; [|done].
    apply String.eqb_eq in Hev as ->. reflexivity. }
  assert (fieldIs event "Event" "Hangup" = false) as ->.
  { unfold fieldIs in *. destruct (event !! "Event") as [v|]; [|done].
    apply String.eqb_eq in Hev as ->. reflexivity. }
  rewrite Hev, Hstate, Hu. unfold CallRepository.getCall. by rewrite Hc.
Qed.

(** C6: the guard of [handleCallConnected] does not make the answered event
    idempotent. When one socket read completes the same answered
    channel-state event twice for a stored call that is not connected, both
    handlers read the record before either writes, both pass the guard,
    and two 'connected' notifications are emitted; the same two events in
    two reads emit one. *)
Theorem answered_twice_in_one_read (st : State) (c : Call) (event : AmiResponse)
    (rid1 rid2 : string) (now : Z) :
  event !! "ActionID" = None →
  fieldIs event "Event" "Newstate" = true →
  fieldIs event "ChannelState" "6" = true →
  truthy (event !! "Uniqueid") = true →
  CallRepository.getCall (default "" (event !! "Uniqueid")) (calls st) = Some c →
  status c ≠ connected →
  let e := mkEvent connected (default "" (event !! "Uniqueid"))
                   (DataChannel (event !! "Channel")) in
  snd (step now (SocketData [(event, rid1); (event, rid2)]) st)
  = [CallEventEmitted e; CallEventEmitted e]
  ∧ snd (run [(now, SocketData [(event, rid1)]); (now, SocketData [(event, rid2)])] st)
    = [CallEventEmitted e].
Proof.
  unfold CallRepository.getCall. intros Hid Hev Hstate Hu Hc Hs. split.
  - cbn [step]. unfold handleData, startAll. cbn [map runAll fst snd].
    rewrite !(answered_event_start event st c _ now) by done.
    unfold runRound. cbn [map runAll runTask app].
    rewrite bool_decide_eq_false_2 by done. cbn [negb]. reflexivity.
  - cbn [run step]. rewrite handleData_single.
    pose proof (answered_event_step event st c rid1 now Hid Hev Hstate Hu Hc) as H1.
    cbn [step] in H1. rewrite H1. rewrite bool_decide_eq_false_2 by done.
    cbn [negb]. cbv beta iota. rewrite handleData_single.
    pose proof (answered_event_step event
                  (set_calls (CallRepository.updateCall (default "" (event !! "Uniqueid"))
                                (statusUpdate connected) (calls st)) st)
                  (merge c (statusUpdate connected)) rid2 now Hid Hev Hstate Hu) as H2.
    cbn [step] in H2. rewrite H2 by (by apply updateCall_lookup).
    rewrite bool_decide_eq_true_2 by done. reflexivity.
Qed.

Lemma answered_twice_in_one_read_witness :
  let st := fst (run [(1000, SocketData [(newchannelEvent, "r1")])]
                     (initial exampleConfig)) in
  let e := mkEvent connected "17.1" (DataChannel None) in
  snd (step 2000 (SocketData [(answeredEvent, "r2"); (answeredEvent, "r3")]) st)
  = [CallEventEmitted e; CallEventEmitted e]
  ∧ snd (run [(2000, SocketData [(answeredEvent, "r2")]);
              (2000, SocketData [(answeredEvent, "r3")])] st)
    = [CallEventEmitted e].
Proof.
  intros st e.
  refine (answered_twice_in_one_read st
            (mkCall "17.1" "1001" "2000" incoming 1000 None None
                    (Some "SIP/1001-0001") None asterisk)
            answeredEvent "r2" "r3" 2000 _ _ _ _ _ _);
    (reflexivity || discriminate).
Defined.

(** ** Two facts used below *)

Lemma handleAmiEvent_settles_nothing event rid now st :
  settled (snd (handleAmiEvent event rid now st)) = [].
Proof.
  unfold handleAmiEvent, handleIncomingCall, handleCallHangup, handleCallConnected.
  repeat match goal with
  | |- context [match ?x with _ => _ end] => destruct x eqn:?
  end; done.
Qed.

Lemma run_cons_fst now i rest st :
  fst (run ((now, i) :: rest) st) = fst (run rest (fst (step now i st))).
Proof.
  simpl. destruct (step now i st) as [st1 out1]. simpl.
  by destruct (run rest st1).
Qed.

(** ** The client never becomes ready *)

Lemma sendAmiCommand_offline command params k now st :
  isConnected st = false → sendAmiCommand command params k now st = None.
Proof. intros H. unfold sendAmiCommand. by rewrite H. Qed.

Lemma scheduleReconnect_client now st :
  isConnected (fst (scheduleReconnect now st)) = isConnected st
  ∧ pendingActions (fst (scheduleReconnect now st)) = pendingActions st
  ∧ calls (fst (scheduleReconnect now st)) = calls st
  ∧ forallb (fun o => negb (isWrite o)) (snd (scheduleReconnect now st)) = true.
Proof.
  unfold scheduleReconnect.
  destruct (reconnectTimer st); [done|].
  by destruct (maxRetries <=? S (connectionAttempts st))%nat.
Qed.

Lemma callEvents_no_write (out : list Output) :
  Forall isCallEvent out → forallb (fun o => negb (isWrite o)) out = true.
Proof.
  induction 1 as [|o rest [e ->] _ IH]; [done|]. simpl. exact IH.
Qed.

Lemma callEvents_settle_nothing (out : list Output) :
  Forall isCallEvent out → settled out = [].
Proof. induction 1 as [|o rest [e ->] _ IH]; [done|]. exact IH. Qed.

Ltac offline_case :=
  repeat match goal with
  | |- context [match ?x with _ => _ end] => destruct x eqn:?; simpl in *
  end; try done.

Lemma step_offline now i st :
  offline st →
  offline (fst (step now i st))
  ∧ forallb (fun o => negb (isWrite o)) (snd (step now i st)) = true.
Proof.
  intros [Hc Hp]. unfold offline.
  destruct i; simpl.
  - unfold makeCall. rewrite Hc. done.
  - unfold hangupCall. rewrite Hc. offline_case.
  - unfold acceptCall. offline_case.
  - unfold rejectCall. rewrite Hc. offline_case.
  - done.
  - unfold externalSend. by rewrite sendAmiCommand_offline.
  - done.
  - unfold cleanup. by destruct (amiSocket (set_reconnectTimer None st)).
  - unfold onConnect. by rewrite sendAmiCommand_offline.
  - unfold onError.
    pose proof (scheduleReconnect_client now (set_isConnected false st)) as (H1 & H2 & _ & H4).
    destruct (scheduleReconnect now (set_isConnected false st)) as [st2 out].
    simpl in *. rewrite H1, H2. split; [done|].
    by destruct (connectionAttempts st =? 0)%nat.
  - unfold onClose.
    pose proof (scheduleReconnect_client now (set_isConnected false st)) as (H1 & H2 & _ & H4).
    rewrite H1, H2. done.
  - unfold handleAmiMessage. rewrite Hp, lookup_empty.
    assert (offline (fst (handleAmiEvent message rid now st))
            ∧ forallb (fun o => negb (isWrite o)) (snd (handleAmiEvent message rid now st)) = true)
      as Hev.
    { unfold offline, handleAmiEvent, handleIncomingCall, handleCallHangup,
        handleCallConnected. offline_case. }
    offline_case.
  - destruct (handleData_offline messages now st (conj Hc Hp)) as (m' & out & -> & _ & Hout).
    split; [done|]. by apply callEvents_no_write.
  - unfold reconnectTimerFired. offline_case.
  - destruct (timers st !! n) as [t|]; [|done].
    destruct (t_due t <=? now); [|done].
    unfold actionTimeoutFired. simpl. rewrite Hp, lookup_empty. done.
  - unfold handleIncomingWebhook. offline_case.
  - unfold handleDialStatus. offline_case.
  - unfold makeOutgoingCall. offline_case.
  - unfold endTwilioCall. offline_case.
  - done.
Qed.

Lemma run_offline ins st :
  offline st →
  offline (fst (run ins st))
  ∧ forallb (fun o => negb (isWrite o)) (snd (run ins st)) = true.
Proof.
  revert st. induction ins as [|[now i] rest IH]; intros st Hst; simpl.
  - done.
  - destruct (step_offline now i st Hst) as [H1 H2].
    destruct (step now i st) as [st1 out1]. simpl in *.
    destruct (IH st1 H1) as [H3 H4].
    destruct (run rest st1) as [st2 out2]. simpl in *.
    split; [done|]. rewrite forallb_app. by rewrite H2, H4.
Qed.

Lemma initial_offline cfg : offline (initial cfg).
Proof. done. Qed.

(** C10: in every state the client reaches from its creation [isConnected]
    is false and no command is pending; the login sent on 'connect' is
    rejected at once, no frame is ever written to the socket, and every
    call of the exported [sendAmiCommand] is rejected with "Not connected
    to Asterisk AMI" without any change of state. *)
Theorem client_never_ready (cfg : Config) (ins : list (Z * Input)) :
  let st := fst (run ins (initial cfg)) in
  isConnected st = false
  ∧ pendingActions st = ∅
  ∧ (∀ frame, SocketWrite frame ∉ snd (run ins (initial cfg)))
  ∧ (∀ now, snd (onConnect now st) = [ConnectPromise (Rejected notConnected)]
            ∧ isConnected (fst (onConnect now st)) = false)
  ∧ ∀ tok command params now,
      externalSend tok command params now st
      = (st, [Settle tok (Rejected "Not connected to Asterisk AMI")]).
Proof.
  intros st.
  destruct (run_offline ins (initial cfg) (initial_offline cfg)) as [[Hc Hp] Hw].
  fold st in Hc, Hp. repeat split; try done.
  - intros frame Hin. rewrite forallb_forall in Hw.
    apply list_elem_of_In in Hin. by apply Hw in Hin.
  - unfold onConnect. by rewrite sendAmiCommand_offline.
  - unfold onConnect. by rewrite sendAmiCommand_offline.
  - intros. unfold externalSend. by rewrite sendAmiCommand_offline.
Qed.

(** ** Commands on the client that never becomes ready *)





(** ** Reconnection back-off *)

(** C3, as stated, fails: after the first failure the client waits 2 s, not
    1 s, and it gives up before the 30 s cap is ever used. *)
Lemma backoff_differs_from_specified :
  scheduledDelays (snd (run (failedAttempts 7 0) (initial exampleConfig)))
  = [2000; 4000; 8000; 16000]
  ∧ scheduledDelays (snd (run (failedAttempts 7 0) (initial exampleConfig)))
    ≠ specifiedDelays
  ∧ scheduledDelays (snd (run (failedAttempts 1 0) (initial exampleConfig)))
    ≠ take 1 specifiedDelays.
Proof. split; [|split]; vm_compute; (reflexivity || discriminate). Qed.

Lemma run_app (l1 l2 : list (Z * Input)) (st : State) :
  run (l1 ++ l2) st
  = let '(st1, out1) := run l1 st in
    let '(st2, out2) := run l2 st1 in
    (st2, out1 ++ out2).
Proof.
  revert st. induction l1 as [|[now i] l1 IH]; intros st; simpl.
  - by destruct (run l2 st).
  - destruct (step now i st) as [st1 out1]. rewrite IH.
    destruct (run l1 st1) as [st2 out2]. destruct (run l2 st2) as [st3 out3].
    by rewrite app_assoc.
Qed.

Lemma reconnectDelay_le (n : nat) : reconnectDelay n ≤ 30000.
Proof. unfold reconnectDelay. lia. Qed.

Lemma scheduleReconnect_armed now st due :
  reconnectTimer st = Some due → scheduleReconnect now st = (st, []).
Proof. intros H. unfold scheduleReconnect. by rewrite H. Qed.

Lemma scheduleReconnect_retry now st :
  reconnectTimer st = None →
  (S (connectionAttempts st) < maxRetries)%nat →
  scheduleReconnect now st
  = (set_reconnectTimer (Some (now + reconnectDelay (S (connectionAttempts st))))
       (set_connectionAttempts (S (connectionAttempts st)) st),
     [SetTimeout (reconnectDelay (S (connectionAttempts st))) ReconnectTimeout]).
Proof.
  intros H Hlt. unfold scheduleReconnect. rewrite H.
  destruct (Nat.leb_spec maxRetries (S (connectionAttempts st))); [lia|done].
Qed.

Lemma scheduleReconnect_give_up now st :
  reconnectTimer st = None →
  (maxRetries ≤ S (connectionAttempts st))%nat →
  scheduleReconnect now st
  = (set_connectionAttempts (S (connectionAttempts st)) st, []).
Proof.
  intros H Hle. unfold scheduleReconnect. rewrite H.
  destruct (Nat.leb_spec maxRetries (S (connectionAttempts st))); [done|lia].
Qed.

Lemma failedAttempt_run (t : Z) (st : State) :
  reconnectTimer st = None →
  let r := run (failedAttempt t) st in
  reconnectTimer (fst r) = None
  ∧ if (S (connectionAttempts st) <? maxRetries)%nat
    then connectionAttempts (fst r) = S (connectionAttempts st)
         ∧ scheduledDelays (snd r) = [reconnectDelay (S (connectionAttempts st))]
    else connectionAttempts (fst r) = S (S (connectionAttempts st))
         ∧ scheduledDelays (snd r) = [].
Proof.
  intros Ht. unfold failedAttempt. cbn [run step]. unfold onError, onClose.
  destruct (Nat.ltb_spec (S (connectionAttempts st)) maxRetries) as [Hlt|Hge].
  - rewrite (scheduleReconnect_retry t (set_isConnected false st)) by done.
    erewrite scheduleReconnect_armed by reflexivity.
    unfold reconnectTimerFired. cbn [reconnectTimer set_reconnectTimer set_isConnected
      set_connectionAttempts connectionAttempts].
    rewrite (proj2 (Z.leb_le _ _))
      by (pose proof (reconnectDelay_le (S (connectionAttempts st))); lia).
    cbn. by destruct (connectionAttempts st =? 0)%nat.
  - rewrite (scheduleReconnect_give_up t (set_isConnected false st)) by done.
    rewrite (scheduleReconnect_give_up t) by (cbn; try done; unfold maxRetries in *; lia).
    unfold reconnectTimerFired. cbn. rewrite Ht. cbn.
    by destruct (connectionAttempts st =? 0)%nat.
Qed.

Lemma scheduledDelays_app (o1 o2 : list Output) :
  scheduledDelays (o1 ++ o2) = scheduledDelays o1 ++ scheduledDelays o2.
Proof. apply omap_app. Qed.

Lemma failedAttempts_delays (n : nat) (t : Z) (st : State) :
  reconnectTimer st = None →
  scheduledDelays (snd (run (failedAttempts n t) st))
  = map reconnectDelay
        (take n (seq (S (connectionAttempts st)) (4 - connectionAttempts st))).
Proof.
  revert t st. induction n as [|n IH]; intros t st Ht; [done|].
  change (failedAttempts (S n) t)
    with (failedAttempt t ++ failedAttempts n (t + 30000)).
  rewrite run_app.
  pose proof (failedAttempt_run t st Ht) as Hrun. cbv zeta in Hrun.
  destruct Hrun as [Ht' Hr].
  destruct (run (failedAttempt t) st) as [st1 out1]. cbn [fst snd] in Ht', Hr.
  specialize (IH (t + 30000) st1 Ht').
  destruct (run (failedAttempts n (t + 30000)) st1) as [st2 out2].
  cbn [fst snd] in *. rewrite scheduledDelays_app, IH.
  destruct (S (connectionAttempts st) <? maxRetries)%nat eqn:Hlt.
  - apply Nat.ltb_lt in Hlt. unfold maxRetries in Hlt.
    destruct Hr as [-> ->].
    replace (4 - connectionAttempts st)%nat
      with (S (4 - S (connectionAttempts st)))%nat by lia.
    reflexivity.
  - apply Nat.ltb_ge in Hlt. unfold maxRetries in Hlt.
    destruct Hr as [-> ->].
    replace (4 - connectionAttempts st)%nat with 0%nat by lia.
    replace (4 - S (S (connectionAttempts st)))%nat with 0%nat by lia.
    cbn [seq]. by rewrite !take_nil.
Qed.

Lemma step_attempts_offline now i st :
  offline st → i ≠ Reconnect →
  (connectionAttempts st ≤ connectionAttempts (fst (step now i st)))%nat.
Proof.
  intros [Hc Hp] Hi.
  assert (∀ s, connectionAttempts s ≤ connectionAttempts (fst (scheduleReconnect now s)))%nat
    as Hsched.
  { intros s. unfold scheduleReconnect. destruct (reconnectTimer s); [done|].
    destruct (maxRetries <=? S (connectionAttempts s))%nat; simpl; lia. }
  destruct i; simpl; try done.
  - unfold makeCall. rewrite Hc. done.
  - unfold hangupCall. rewrite Hc. offline_case.
  - unfold acceptCall. offline_case.
  - unfold rejectCall. rewrite Hc. offline_case.
  - unfold externalSend. by rewrite sendAmiCommand_offline.
  - unfold cleanup. by destruct (amiSocket (set_reconnectTimer None st)).
  - unfold onConnect. by rewrite sendAmiCommand_offline.
  - unfold onError. specialize (Hsched (set_isConnected false st)).
    by destruct (scheduleReconnect now (set_isConnected false st)).
  - unfold onClose. apply (Hsched (set_isConnected false st)).
  - unfold handleAmiMessage. rewrite Hp, lookup_empty.
    assert (connectionAttempts (fst (handleAmiEvent message rid now st))
            = connectionAttempts st) as Hev.
    { unfold handleAmiEvent, handleIncomingCall, handleCallHangup,
        handleCallConnected. offline_case. }
    offline_case; lia.
  - destruct (handleData_offline messages now st (conj Hc Hp)) as (m' & out & -> & _).
    simpl. lia.
  - unfold reconnectTimerFired. offline_case.
  - destruct (timers st !! n) as [t|]; [|done].
    destruct (t_due t <=? now); [|done].
    unfold actionTimeoutFired. simpl. rewrite Hp, lookup_empty. done.
  - unfold handleIncomingWebhook. offline_case.
  - unfold handleDialStatus. offline_case.
  - unfold makeOutgoingCall. offline_case.
  - unfold endTwilioCall. offline_case.
Qed.

(** C3 (amended): starting from the fresh attempt counter, consecutive
    connection failures arm the reconnect timer with 2 s, 4 s, 8 s and 16 s
    (min(1 s * 2^attempt, 30 s), the counter being incremented before the
    delay is computed); from the fifth failure on (counter at the maximum of
    5) no reconnect is scheduled. The manual [reconnect] clears the timer,
    resets the counter and connects at once, so that the same sequence
    starts again, and it is the only input that ever lowers the counter. *)
Theorem reconnect_backoff (cfg : Config) :
  (∀ n t, scheduledDelays (snd (run (failedAttempts n t) (initial cfg)))
          = take n [2000; 4000; 8000; 16000])
  ∧ (∀ st, connectionAttempts (fst (reconnect st)) = 0%nat
           ∧ reconnectTimer (fst (reconnect st)) = None
           ∧ snd (reconnect st) = [SocketConnect (port (config st)) (host (config st))]
           ∧ ∀ n t, scheduledDelays (snd (run (failedAttempts n t) (fst (reconnect st))))
                    = take n [2000; 4000; 8000; 16000])
  ∧ (∀ ins now i,
       let st := fst (run ins (initial cfg)) in
       (connectionAttempts (fst (step now i st)) < connectionAttempts st)%nat →
       i = Reconnect).
Proof.
  assert (∀ st n t, reconnectTimer st = None → connectionAttempts st = 0%nat →
            scheduledDelays (snd (run (failedAttempts n t) st))
            = take n [2000; 4000; 8000; 16000]) as Hfresh.
  { intros st n t Ht Ha. rewrite failedAttempts_delays by done. rewrite Ha.
    destruct n as [|[|[|[|[|n]]]]]; reflexivity. }
  split; [|split].
  - intros n t. by apply Hfresh.
  - intros st. repeat split. intros n t. by apply Hfresh.
  - intros ins now i st Hlt.
    assert (i = Reconnect ∨ i ≠ Reconnect) as [|Hne]
      by (destruct i; (by left) || (by right)); [done|].
    pose proof (run_offline ins (initial cfg) (initial_offline cfg)) as [Hoff _].
    pose proof (step_attempts_offline now i _ Hoff Hne). fold st in H. lia.
Qed.

Lemma reconnect_backoff_witness :
  let st := fst (run (failedAttempts 2 0) (initial exampleConfig)) in
  scheduledDelays (snd (run (failedAttempts 7 0) (initial exampleConfig)))
  = [2000; 4000; 8000; 16000]
  ∧ connectionAttempts st = 2%nat
  ∧ connectionAttempts (fst (step 90000 Reconnect st)) = 0%nat
  ∧ Reconnect = Reconnect.
Proof.
  intros st. destruct (reconnect_backoff exampleConfig) as (Hdelays & _ & Honly).
  split; [exact (Hdelays 7%nat 0)|].
  split; [reflexivity|]. split; [reflexivity|].
  apply (Honly (failedAttempts 2 0) 90000 Reconnect). vm_compute. lia.
Defined.

(** ** End time and duration of stored calls *)


(** The two inputs that separate the end time from the status, each in a
    run from the creation of the service. A status webhook that reports
    canceled leaves the call [ended] without an end time; a status webhook
    that arrives after the end moves the ended call on while its end time
    stays; and so does the answered event of the PBX after a Hangup. *)
Lemma webhook_status_without_end_time :
  (∃ c, calls (fst (run [(0, IncomingWebhook 1 ringingWebhook "r");
                         (4000, IncomingWebhook 2 canceledWebhook "r")]
                        (initial exampleConfig))) !! "CA1" = Some c
        ∧ status c = ended ∧ endTime c = None)
  ∧ (∃ c, calls (fst (run [(0, IncomingWebhook 1 ringingWebhook "r");
                           (4000, DialStatus 2 (mkDial (Some "CA1") "busy" None));
                           (4500, IncomingWebhook 3 answeredWebhook "r")]
                          (initial exampleConfig))) !! "CA1" = Some c
          ∧ status c = connected ∧ endTime c = Some 4000)
  ∧ (∃ c, calls (fst (run [(1000, SocketData [(newchannelEvent, "r1")]);
                           (7000, SocketData [(hangupEvent, "r2")]);
                           (7500, SocketData [(answeredEvent, "r3")])]
                          (initial exampleConfig))) !! "17.1" = Some c
          ∧ status c = connected ∧ endTime c = Some 7000).
Proof. repeat split; eexists; (split; [vm_compute; reflexivity|done]). Qed.














(** ** Outbound frames *)

Lemma string_app_cons (c : ascii) (s1 s2 : string) :
  String c s1 +:+ s2 = String c (s1 +:+ s2).
Proof. reflexivity. Qed.

Lemma string_app_assoc (s1 s2 s3 : string) :
  (s1 +:+ s2) +:+ s3 = s1 +:+ (s2 +:+ s3).
Proof.
  induction s1 as [|c s1 IH]; [done|]. by rewrite !string_app_cons, IH.
Qed.

Lemma string_app_nil_r (s : string) : s +:+ "" = s.
Proof. induction s as [|c s IH]; [done|]. by rewrite string_app_cons, IH. Qed.

Lemma lacks_app (x : ascii) (s1 s2 : string) :
  lacks x (s1 +:+ s2) = lacks x s1 && lacks x s2.
Proof.
  induction s1 as [|c s1 IH]; [done|].
  rewrite string_app_cons. cbn [lacks]. by rewrite IH, andb_assoc.
Qed.

(** A text without carriage return, followed by CR LF, is one line. *)
Lemma splitCRLF_line (s rest cur : string) :
  lacks CR s = true →
  splitCRLF (s +:+ CRLF +:+ rest) cur = (cur +:+ s) :: splitCRLF rest "".
Proof.
  revert cur. induction s as [|c s IH]; intros cur Hs.
  - cbn. by rewrite string_app_nil_r.
  - cbn [lacks] in Hs. apply andb_true_iff in Hs as [Hc Hs].
    apply negb_true_iff in Hc.
    change (String c s +:+ CRLF +:+ rest) with (String c (s +:+ CRLF +:+ rest)).
    cbn [splitCRLF]. specialize (IH (cur +:+ String c "") Hs).
    destruct (s +:+ CRLF +:+ rest) as [|c' rest'] eqn:Heq.
    { destruct s; discriminate Heq. }
    unfold CR in Hc. rewrite Hc. cbn [andb]. rewrite IH.
    by rewrite string_app_assoc.
Qed.

Lemma concat_cons (h : string) (t : list string) :
  String.concat "" (h :: t) = h +:+ String.concat "" t.
Proof. destruct t; simpl; [by rewrite string_app_nil_r|done]. Qed.

Lemma splitCRLF_params (params : list (string * string)) (rest : string) :
  Forall (fun p => lacks CR p.1 = true ∧ lacks CR p.2 = true) params →
  splitCRLF (String.concat "" (map paramLine params) +:+ rest) ""
  = map paramText params ++ splitCRLF rest "".
Proof.
  induction 1 as [|p params [Hk Hv] _ IH]; [done|].
  cbn [map]. rewrite concat_cons. unfold paramLine at 1.
  rewrite !string_app_assoc.
  rewrite splitCRLF_line, IH; [done|].
  unfold paramText. by rewrite !lacks_app, Hk, Hv.
Qed.

(** The lines of a frame, for a command name, an identifier and parameters
    free of carriage returns: the Action line, the ActionID line, one line
    per parameter in the order of [Object.entries], and the blank line. *)
(** The frame [sendAmiCommand] builds from the parameters [makeCall] hands
    it: the ActionID among the parameters gives a second ActionID line. *)
Lemma originate_frame_action_ids :
  actionIdLines (amiFrame "Originate" "action_1_1000"
                          (originateParams "1001" "2000" "k3x9a7"))
  = ["ActionID: action_1_1000"; "ActionID: k3x9a7"].
Proof. vm_compute. reflexivity. Qed.

Lemma amiFrame_lines (command aid : string) (params : list (string * string)) :
  lacks CR command = true → lacks CR aid = true →
  Forall (fun p => lacks CR p.1 = true ∧ lacks CR p.2 = true) params →
  frameLines (amiFrame command aid params)
  = ("Action: " +:+ command) :: ("ActionID: " +:+ aid)
    :: map paramText params ++ [""; ""].
Proof.
  intros Hc Ha Hp. unfold frameLines, amiFrame.
  rewrite <- (string_app_assoc "Action: " command).
  rewrite splitCRLF_line by (by rewrite lacks_app, Hc).
  rewrite <- (string_app_assoc "ActionID: " aid).
  rewrite splitCRLF_line by (by rewrite lacks_app, Ha).
  by rewrite splitCRLF_params.
Qed.

(** * Further properties

    Properties of the code beyond the claims of the specification. *)

(** ** The repository *)

Lemma getAllCalls_elem (m : gmap string Call) (c : Call) :
  c ∈ Repository.getAllCalls m ↔ ∃ k, m !! k = Some c.
Proof.
  unfold Repository.getAllCalls.
  rewrite list_elem_of_In, in_map_iff. split.
  - intros [[k c'] [Heq Hin]]. simpl in Heq. subst c'.
    exists k. apply elem_of_map_to_list. by apply list_elem_of_In.
  - intros [k Hk]. exists (k, c). split; [done|].
    apply list_elem_of_In. by apply elem_of_map_to_list.
Qed.

Lemma getAllCalls_length (m : gmap string Call) :
  List.length (Repository.getAllCalls m) = Repository.getCallCount m.
Proof.
  unfold Repository.getAllCalls, Repository.getCallCount.
  by rewrite length_map, length_map_to_list.
Qed.

(** X1: a record that is created is found again under its identifier, is
    listed by [getAllCalls], and leaves every other identifier as it was;
    [createCall] does not refuse an identifier that is already stored but
    replaces the record, and the number of records grows only for a new
    identifier. *)
Theorem createCall_then_getCall (c : Call) (m : gmap string Call) :
  let m' := CallRepository.createCall c m in
  CallRepository.getCall (id c) m' = Some c
  ∧ (∀ k, k ≠ id c → CallRepository.getCall k m' = CallRepository.getCall k m)
  ∧ c ∈ Repository.getAllCalls m'
  ∧ Repository.getCallCount m'
    = match CallRepository.getCall (id c) m with
      | Some _ => Repository.getCallCount m
      | None => S (Repository.getCallCount m)
      end.
Proof.
  unfold CallRepository.createCall, CallRepository.getCall, Repository.getCallCount.
  cbv zeta. repeat split.
  - apply lookup_insert_eq.
  - intros k Hk. by apply lookup_insert_ne.
  - apply getAllCalls_elem. exists (id c). apply lookup_insert_eq.
  - destruct (m !! id c) as [c0|] eqn:Hc.
    + by apply map_size_insert_Some.
    + by apply map_size_insert_None.
Qed.

(** X2: [updateCall] on an identifier that is not stored returns null and
    leaves the table as it is. On a stored one it returns the record it
    stores; that record keeps the identifier, both numbers, the start time,
    the channel, the cloud identifier and the provider, takes over each
    field the update names and keeps the others; no other record and not
    the number of records changes. *)
Theorem updateCall_result (i : string) (u : CallUpdate) (m : gmap string Call) :
  let m' := CallRepository.updateCall i u m in
  match CallRepository.getCall i m with
  | None => Repository.updateCallResult i u m = None ∧ m' = m
  | Some c =>
      ∃ c', Repository.updateCallResult i u m = Some c'
            ∧ CallRepository.getCall i m' = Some c'
            ∧ (id c', from c', to c', startTime c', channel c', twilioCallSid c', provider c')
              = (id c, from c, to c, startTime c, channel c, twilioCallSid c, provider c)
            ∧ status c' = default (status c) (u_status u)
            ∧ endTime c' = from_option Some (endTime c) (u_endTime u)
            ∧ duration c' = from_option Some (duration c) (u_duration u)
  end
  ∧ (∀ k, k ≠ i → CallRepository.getCall k m' = CallRepository.getCall k m)
  ∧ Repository.getCallCount m' = Repository.getCallCount m.
Proof.
  unfold CallRepository.updateCall, CallRepository.getCall, Repository.updateCallResult,
    Repository.getCallCount.
  cbv zeta. destruct (m !! i) as [c|] eqn:Hc.
  - split; [|split].
    + exists (merge c u). rewrite lookup_insert_eq.
      repeat split; by destruct u as [s [e|] [d|]].
    + intros k Hk. by apply lookup_insert_ne.
    + by apply map_size_insert_Some.
  - done.
Qed.

(** X3: [deleteCall] answers whether the identifier was stored; afterwards
    the identifier is not found, every other record is as before, and the
    count is one less exactly when a record was removed. Deleting a record
    that was just created under a new identifier gives the table back. *)
Theorem deleteCall_result (i : string) (m : gmap string Call) :
  let r := Repository.deleteCall i m in
  (snd r = true ↔ CallRepository.getCall i m ≠ None)
  ∧ CallRepository.getCall i (fst r) = None
  ∧ (∀ k, k ≠ i → CallRepository.getCall k (fst r) = CallRepository.getCall k m)
  ∧ Repository.getCallCount m
    = (Repository.getCallCount (fst r) + if snd r then 1 else 0)%nat
  ∧ Repository.deleteCall i (fst r) = (fst r, false)
  ∧ ∀ c, CallRepository.getCall (id c) m = None →
         fst (Repository.deleteCall (id c) (CallRepository.createCall c m)) = m.
Proof.
  unfold Repository.deleteCall, CallRepository.getCall, CallRepository.createCall,
    Repository.getCallCount.
  cbv zeta. cbn [fst snd]. repeat split.
  - intros H%bool_decide_eq_true. destruct H as [c Hc]. congruence.
  - intros H. apply bool_decide_eq_true. by destruct (m !! i) as [c|]; [exists c|].
  - apply lookup_delete_eq.
  - intros k Hk. by apply lookup_delete_ne.
  - destruct (m !! i) as [c|] eqn:Hc.
    + rewrite bool_decide_eq_true_2 by (by exists c).
      rewrite <- (insert_delete_id m i c Hc) at 1.
      rewrite map_size_insert_None by apply lookup_delete_eq. lia.
    + rewrite bool_decide_eq_false_2 by (intros [? ?]; congruence).
      rewrite delete_id by done. lia.
  - f_equal.
    + apply delete_id, lookup_delete_eq.
    + apply bool_decide_eq_false_2. rewrite lookup_delete_eq. by intros [? ?].
  - intros c Hc. by apply delete_insert_id.
Qed.

(** X4: [getActiveConnections] lists exactly the stored records whose
    status is connected or incoming, so never more than [getCallCount]
    records, and none once the table has been cleared. *)
Theorem getActiveConnections_spec (m : gmap string Call) :
  (∀ c, c ∈ CallRepository.getActiveConnections m
        ↔ (∃ k, CallRepository.getCall k m = Some c)
          ∧ (status c = connected ∨ status c = incoming))
  ∧ (List.length (CallRepository.getActiveConnections m) ≤ Repository.getCallCount m)%nat
  ∧ CallRepository.getActiveConnections (CallRepository.clearAllCalls m) = [].
Proof.
  split; [|split].
  - intros c. unfold CallRepository.getActiveConnections, CallRepository.getCall.
    rewrite list_elem_of_filter.
    change (map snd (map_to_list m)) with (Repository.getAllCalls m).
    rewrite getAllCalls_elem. unfold CallRepository.active.
    rewrite orb_true_iff, !bool_decide_eq_true. tauto.
  - rewrite <- getAllCalls_length. apply length_filter.
  - unfold CallRepository.getActiveConnections, CallRepository.clearAllCalls.
    by rewrite map_to_list_empty.
Qed.

(** ** The call table along a run *)

Lemma storeChange_update i k u (m : gmap string Call) :
  storeChange i m (CallRepository.updateCall k u m).
Proof.
  unfold CallRepository.updateCall. destruct (m !! k) as [c|] eqn:Hc.
  - by apply sc_update.
  - apply sc_same.
Qed.

Lemma storeChange_create i c (m : gmap string Call) :
  overwrites i = true ∨ m !! id c = None →
  storeChange i m (CallRepository.createCall c m).
Proof. intros H. by apply sc_create. Qed.

Ltac change_case :=
  repeat match goal with
  | |- context [match ?x with _ => _ end] => destruct x eqn:?; simpl in *
  end;
  try apply sc_same;
  try apply storeChange_update;
  try (apply storeChange_create; simpl; auto).

Lemma step_storeChange_one now i st :
  offline st → (∀ messages, i ≠ SocketData messages) →
  storeChange i (calls st) (calls (fst (step now i st))).
Proof.
  intros [Hc Hp] Hone.
  destruct i; simpl.
  - unfold makeCall, finishMakeCall. rewrite Hc. change_case.
  - unfold hangupCall, finishHangup. rewrite Hc. change_case.
  - unfold acceptCall. change_case.
  - unfold rejectCall, finishReject. rewrite Hc. change_case.
  - unfold simulateIncomingCall. change_case.
  - unfold externalSend. rewrite sendAmiCommand_offline by done. apply sc_same.
  - apply sc_same.
  - unfold cleanup. destruct (amiSocket (set_reconnectTimer None st)); apply sc_same.
  - unfold onConnect. rewrite sendAmiCommand_offline by done. apply sc_same.
  - unfold onError.
    pose proof (scheduleReconnect_client now (set_isConnected false st)) as (_ & _ & H3 & _).
    destruct (scheduleReconnect now (set_isConnected false st)). simpl in *.
    rewrite H3. apply sc_same.
  - unfold onClose.
    pose proof (scheduleReconnect_client now (set_isConnected false st)) as (_ & _ & H3 & _).
    rewrite H3. apply sc_same.
  - unfold handleAmiMessage. rewrite Hp, lookup_empty.
    assert (storeChange (SocketMessage message rid) (calls st)
              (calls (fst (handleAmiEvent message rid now st)))) as Hev.
    { unfold handleAmiEvent, handleIncomingCall, handleCallHangup, handleCallConnected.
      change_case. }
    destruct (truthy (message !! "ActionID")), (truthy (message !! "Event"));
      (exact Hev || apply sc_same).
  - by destruct (Hone messages).
  - unfold reconnectTimerFired. change_case.
  - destruct (timers st !! n) as [t|]; [|apply sc_same].
    destruct (t_due t <=? now); [|apply sc_same].
    unfold actionTimeoutFired. simpl. rewrite Hp, lookup_empty. apply sc_same.
  - unfold handleIncomingWebhook, CallRepository.getCall. change_case.
  - unfold handleDialStatus. change_case.
  - unfold makeOutgoingCall. change_case.
  - unfold endTwilioCall. change_case.
  - by apply sc_clear.
Qed.

Lemma step_storeChange now i st :
  offline st → rtc (storeChange i) (calls st) (calls (fst (step now i st))).
Proof.
  intros Hoff.
  assert ((∃ messages, i = SocketData messages) ∨ ∀ messages, i ≠ SocketData messages)
    as [[messages ->]|Hone] by (destruct i; (by right) || (left; by eexists)).
  - simpl.
    destruct (handleData_offline messages now st Hoff) as (m' & out & -> & Hrtc & _).
    simpl. induction Hrtc as [|m1 m2 m3 Hch _ IH]; [done|].
    eapply rtc_l; [|exact IH].
    destruct Hch as [event rid c m Hin Hev Hs He Hd|event rid k d m Hin Hev
                    |event rid k m Hin Hev Hsix].
    + apply sc_create. left. simpl. apply existsb_exists.
      exists (event, rid). split; [by apply list_elem_of_In|done].
    + apply storeChange_update.
    + apply storeChange_update.
  - apply rtc_once. by apply step_storeChange_one.
Qed.

(** An invariant of the table that every allowed handler keeps holds along
    every run of allowed inputs. *)
Lemma run_store_invariant (allowed : Input → bool) (P : gmap string Call → Prop)
    (ins : list (Z * Input)) (st : State) :
  (∀ i m m', allowed i = true → storeChange i m m' → P m → P m') →
  offline st → forallb allowed (map snd ins) = true →
  P (calls st) → P (calls (fst (run ins st))).
Proof.
  intros Hstep. revert st.
  induction ins as [|[now i] rest IH]; intros st Hoff Hall HP; [done|].
  simpl in Hall. apply andb_true_iff in Hall as [Hi Hall].
  rewrite run_cons_fst. apply IH; [|done|].
  - by apply step_offline.
  - pose proof (step_storeChange now i st Hoff) as Hrtc.
    induction Hrtc as [|m1 m2 m3 Hch _ IHch]; [done|].
    apply IHch. by apply (Hstep i m1).
Qed.

Lemma run_app_fst (l1 l2 : list (Z * Input)) (st : State) :
  fst (run (l1 ++ l2) st) = fst (run l2 (fst (run l1 st))).
Proof.
  rewrite run_app. destruct (run l1 st) as [st1 out1]. simpl.
  by destruct (run l2 st1).
Qed.

Lemma run_keyed (cfg : Config) (ins : list (Z * Input)) :
  map_Forall (fun k c => id c = k) (calls (fst (run ins (initial cfg)))).
Proof.
  refine (run_store_invariant (fun _ => true)
            (fun m : gmap string Call => map_Forall (fun k c => id c = k) m)
            ins (initial cfg) _ (initial_offline cfg) _ (map_Forall_empty _)).
  - intros i m m' _ Hch Hm. destruct Hch as [|c0 _|k0 c0 u Hc0|_].
    + done.
    + by apply map_Forall_insert_2.
    + apply map_Forall_insert_2; [|done]. simpl. by apply (Hm k0).
    + apply map_Forall_empty.
  - clear. by induction ins as [|[now i] rest IH].
Qed.

(** X5: in every state the service reaches, each record is stored under its
    own identifier: what [getCall] finds under an identifier has that
    identifier in its [id] field. *)
Theorem stored_call_id_is_key (cfg : Config) (ins : list (Z * Input))
    (k : string) (c : Call) :
  CallRepository.getCall k (calls (fst (run ins (initial cfg)))) = Some c →
  id c = k.
Proof. intros Hk. by apply (run_keyed cfg ins k c). Qed.

Lemma stored_call_id_is_key_witness :
  id (mkCall "c1" "1001" "1001" incoming 0 None None (Some "SIP/simulated-7") None
             asterisk) = "c1".
Proof.
  apply (stored_call_id_is_key exampleConfig
           [(0, SimulateIncomingCall 1 "1001" "1001" "c1" 7)]).
  vm_compute. reflexivity.
Defined.

(** X6: no handler removes a call record: along a run in which the table is
    not cleared ([cleanup] of the call service is the only caller of
    [clearAllCalls], and nothing calls [deleteCall]), an identifier that
    was stored stays stored. *)
Theorem stored_call_never_removed (cfg : Config) (before after : list (Z * Input))
    (k : string) :
  forallb (fun i => negb (isClear i)) (map snd after) = true →
  is_Some (CallRepository.getCall k (calls (fst (run before (initial cfg))))) →
  is_Some (CallRepository.getCall k (calls (fst (run (before ++ after) (initial cfg))))).
Proof.
  unfold CallRepository.getCall. intros Hafter Hk. rewrite run_app_fst.
  refine (run_store_invariant (fun i => negb (isClear i))
            (fun m : gmap string Call => is_Some (m !! k)) after _ _ _ Hafter Hk).
  - intros i m m' Hi Hch Hm. cbv beta in *. destruct Hch as [|c0 _|k0 c0 u Hc0| -> ].
    + done.
    + destruct (decide (id c0 = k)) as [->|Hne].
      * rewrite lookup_insert_eq. by eexists.
      * by rewrite lookup_insert_ne.
    + destruct (decide (k0 = k)) as [->|Hne].
      * rewrite lookup_insert_eq. by eexists.
      * by rewrite lookup_insert_ne.
    + discriminate.
  - apply run_offline, initial_offline.
Qed.

Lemma stored_call_never_removed_witness :
  is_Some (CallRepository.getCall "c1"
             (calls (fst (run ([(0, SimulateIncomingCall 1 "1001" "1001" "c1" 7)]
                               ++ [(5000, RejectCall 2 "c1"); (6000, Cleanup)])
                              (initial exampleConfig))))).
Proof.
  apply stored_call_never_removed.
  - reflexivity.
  - vm_compute. by eexists.
Defined.

(** X7: the identifier, both numbers, the start time, the channel, the cloud
    identifier and the provider of a stored call never change along a run
    with no overwriting input (placing or simulating a call, a Newchannel
    event) and no bulk clear: accepting, rejecting, hanging up, the other
    PBX events, the webhooks and the connection handling only move the
    status, the end time and the duration. *)
Theorem call_identity_preserved (cfg : Config) (before after : list (Z * Input))
    (k : string) (c : Call) :
  forallb (fun i => negb (overwrites i) && negb (isClear i)) (map snd after) = true →
  CallRepository.getCall k (calls (fst (run before (initial cfg)))) = Some c →
  ∃ c', CallRepository.getCall k (calls (fst (run (before ++ after) (initial cfg))))
        = Some c'
        ∧ sameIdentity c c'.
Proof.
  unfold CallRepository.getCall. intros Hafter Hk. rewrite run_app_fst.
  refine (run_store_invariant (fun i => negb (overwrites i) && negb (isClear i))
            (fun m : gmap string Call => ∃ c', m !! k = Some c' ∧ sameIdentity c c') after _ _ _ Hafter _).
  - intros i m m' Hi Hch (c' & Hc' & Hid). cbv beta.
    apply andb_true_iff in Hi as [Hov Hcl].
    destruct Hch as [|c0 Hnew|k0 c0 u Hc0| -> ].
    + by exists c'.
    + destruct Hnew as [Hnew|Hnew]; [by rewrite Hnew in Hov|].
      exists c'. split; [|done]. rewrite lookup_insert_ne; [done|]. congruence.
    + destruct (decide (k0 = k)) as [->|Hne].
      * exists (merge c0 u). rewrite lookup_insert_eq. split; [done|].
        assert (c0 = c') as -> by congruence. exact Hid.
      * exists c'. by rewrite lookup_insert_ne.
    + discriminate.
  - apply run_offline, initial_offline.
  - exists c. by repeat split.
Qed.

Lemma call_identity_preserved_witness :
  ∃ c', CallRepository.getCall "c1"
          (calls (fst (run ([(0, SimulateIncomingCall 1 "1001" "1001" "c1" 7)]
                            ++ [(1000, AcceptCall 2 "c1"); (5000, HangupCall 3 "c1")])
                           (initial exampleConfig)))) = Some c'
        ∧ sameIdentity (mkCall "c1" "1001" "1001" incoming 0 None None
                               (Some "SIP/simulated-7") None asterisk) c'.
Proof.
  apply call_identity_preserved.
  - reflexivity.
  - vm_compute. reflexivity.
Defined.

(** ** The life cycle on the PBX side *)

Lemma updateCall_insert (i : string) (u : CallUpdate) (c : Call) (m : gmap string Call) :
  CallRepository.updateCall i u (<[i := c]> m) = <[i := merge c u]> m.
Proof.
  unfold CallRepository.updateCall. rewrite lookup_insert_eq.
  apply insert_insert_eq.
Qed.

Lemma run_state_offline (cfg : Config) (ins : list (Z * Input)) :
  offline (fst (run ins (initial cfg))).
Proof. apply run_offline, initial_offline. Qed.

(** X8: a simulated incoming call that is accepted and then hung up, in any
    state the service reaches and for any numbers, identifier and times
    (the three handlers one after the other): each of the three calls
    succeeds, the notifications are 'incoming', 'connected' and 'ended' in
    this order, and the record ends with status ended, the start time of
    the simulation, the end time of the hang-up and their difference in
    whole seconds, rounded down, as duration; the duration is negative
    exactly when the clock went backwards. *)
Theorem simulated_call_life (cfg : Config) (ins : list (Z * Input))
    (tok1 tok2 tok3 : nat) (fromNumber toNumber rid : string) (rnd : nat)
    (t1 t2 t3 : Z) :
  let st := fst (run ins (initial cfg)) in
  let chan := Some ("SIP/simulated-" +:+ pretty rnd) in
  let call := mkCall rid fromNumber toNumber incoming t1 None None chan None asterisk in
  let dur := (t3 - t1) / 1000 in
  let r := run [(t1, SimulateIncomingCall tok1 fromNumber toNumber rid rnd);
                (t2, AcceptCall tok2 rid); (t3, HangupCall tok3 rid)] st in
  CallRepository.getCall rid (calls (fst r))
  = Some (mkCall rid fromNumber toNumber ended t1 (Some t3) (Some dur) chan None asterisk)
  ∧ snd r = [CallEventEmitted (mkEvent incoming rid (DataCall call));
             Settle tok1 (Resolved (VCallId rid));
             CallEventEmitted (mkEvent connected rid (DataChannel chan));
             Settle tok2 (Resolved VVoid);
             CallEventEmitted (mkEvent ended rid (DataCause (Some "hangup") (Some dur)));
             Settle tok3 (Resolved VVoid)]
  ∧ 1000 * dur ≤ t3 - t1 < 1000 * dur + 1000
  ∧ (0 ≤ dur ↔ t1 ≤ t3).
Proof.
  intros st chan call dur r.
  destruct (run_state_offline cfg ins) as [Hc _]. fold st in Hc.
  assert (r = (set_calls (<[rid := mkCall rid fromNumber toNumber ended t1 (Some t3)
                                     (Some dur) chan None asterisk]> (calls st)) st,
               [CallEventEmitted (mkEvent incoming rid (DataCall call));
                Settle tok1 (Resolved (VCallId rid));
                CallEventEmitted (mkEvent connected rid (DataChannel chan));
                Settle tok2 (Resolved VVoid);
                CallEventEmitted (mkEvent ended rid (DataCause (Some "hangup") (Some dur)));
                Settle tok3 (Resolved VVoid)])) as ->.
  { subst r. cbn [run step]. unfold simulateIncomingCall, CallRepository.createCall.
    cbn [id]. fold chan. fold call.
    unfold acceptCall, CallRepository.getCall. cbn [calls set_calls].
    rewrite lookup_insert_eq. cbn [status call]. rewrite bool_decide_eq_true_2 by done.
    cbn [negb]. rewrite updateCall_insert.
    unfold hangupCall, CallRepository.getCall. cbn [calls set_calls].
    rewrite lookup_insert_eq.
    change (truthy (channel (merge call (statusUpdate connected)))) with true.
    cbv iota. cbn [isConnected set_calls]. rewrite Hc.
    unfold finishHangup. cbn [calls set_calls]. rewrite updateCall_insert.
    reflexivity. }
  cbn [fst snd calls set_calls]. unfold CallRepository.getCall.
  rewrite lookup_insert_eq. split; [done|]. split; [done|].
  subst dur. pose proof (Z.div_mod (t3 - t1) 1000 ltac:(lia)) as Hdm.
  pose proof (Z.mod_pos_bound (t3 - t1) 1000 ltac:(lia)) as Hm.
  split; [lia|]. split; intros H; [lia|]. apply Z.div_pos; lia.
Qed.

Lemma scheduleReconnect_settles_nothing now st :
  settled (snd (scheduleReconnect now st)) = [].
Proof.
  unfold scheduleReconnect. destruct (reconnectTimer st); [done|].
  by destruct (maxRetries <=? S (connectionAttempts st))%nat.
Qed.

Ltac settle_case :=
  repeat match goal with
  | |- context [match ?x with _ => _ end] => destruct x eqn:?; simpl in *
  end; try done; try (by eexists).

(** X9: in every state the service reaches, each exported operation settles
    the promise it returns exactly once, in the handler that runs it (for
    the operations of the cloud service the answer of the provider's API is
    part of the input): no caller is left waiting. The callbacks of the
    socket and of the timers settle no caller's promise. *)
Theorem operations_settle_at_once (cfg : Config) (ins : list (Z * Input))
    (now : Z) (i : Input) :
  let out := snd (step now i (fst (run ins (initial cfg)))) in
  match promiseOf i with
  | Some tok => ∃ r, settled out = [(tok, r)]
  | None => settled out = []
  end.
Proof.
  destruct (run_state_offline cfg ins) as [Hc Hp].
  set (st := fst (run ins (initial cfg))) in *. cbv zeta.
  destruct i; simpl.
  - unfold makeCall, finishMakeCall. rewrite Hc. by eexists.
  - unfold hangupCall, finishHangup. rewrite Hc. settle_case.
  - unfold acceptCall. settle_case.
  - unfold rejectCall, finishReject. rewrite Hc. settle_case.
  - by eexists.
  - unfold externalSend. rewrite sendAmiCommand_offline by done. by eexists.
  - done.
  - unfold cleanup. by destruct (amiSocket (set_reconnectTimer None st)).
  - unfold onConnect. by rewrite sendAmiCommand_offline.
  - unfold onError.
    pose proof (scheduleReconnect_settles_nothing now (set_isConnected false st)) as Hs.
    destruct (scheduleReconnect now (set_isConnected false st)) as [st2 out2].
    simpl in *. by destruct (connectionAttempts st =? 0)%nat.
  - apply scheduleReconnect_settles_nothing.
  - unfold handleAmiMessage. rewrite Hp, lookup_empty.
    pose proof (handleAmiEvent_settles_nothing message rid now st) as Hev.
    by destruct (truthy (message !! "ActionID")), (truthy (message !! "Event")).
  - destruct (handleData_offline messages now st (conj Hc Hp)) as (m' & out & -> & _ & Hout).
    by apply callEvents_settle_nothing.
  - unfold reconnectTimerFired. settle_case.
  - destruct (timers st !! n) as [t|]; [|done].
    destruct (t_due t <=? now); [|done].
    unfold actionTimeoutFired. simpl. rewrite Hp, lookup_empty. done.
  - unfold handleIncomingWebhook. settle_case.
  - unfold handleDialStatus. settle_case.
  - unfold makeOutgoingCall. settle_case.
  - unfold endTwilioCall. settle_case.
  - done.
Qed.

Ltac emitted H :=
  repeat (apply elem_of_cons in H as [H|H]; [try discriminate; try (injection H as ->)|]);
  try (by apply elem_of_nil in H).

Ltac stored_case :=
  repeat match goal with
  | |- context [match ?x with _ => _ end] => destruct x eqn:?
  end;
  cbn [fst snd calls set_calls]; intros Hin; emitted Hin; cbn [ev_callId ev_type];
  try (eexists; split;
       [ (apply lookup_insert_eq) || (apply updateCall_lookup; eassumption) | reflexivity ]).

Lemma step_notification_stored (now : Z) (i : Input) (st : State) (e : CallEvent) :
  offline st → map_Forall (fun k c => id c = k) (calls st) →
  (∀ messages, i ≠ SocketData messages) →
  CallEventEmitted e ∈ snd (step now i st) →
  ∃ c, calls (fst (step now i st)) !! ev_callId e = Some c ∧ status c = ev_type e.
Proof.
  intros [Hc Hp] Hk Hone.
  destruct i; cbn [step].
  - unfold makeCall, finishMakeCall, CallRepository.createCall. rewrite Hc. stored_case.
  - unfold hangupCall, finishHangup, CallRepository.getCall. rewrite Hc. stored_case.
  - unfold acceptCall, CallRepository.getCall.
    destruct (calls st !! callId) as [call|] eqn:Hcall; [|stored_case].
    rewrite (Hk callId call Hcall). stored_case.
  - unfold rejectCall, finishReject, CallRepository.getCall. rewrite Hc. cbn [andb].
    stored_case.
  - unfold simulateIncomingCall, CallRepository.createCall. stored_case.
  - unfold externalSend. rewrite sendAmiCommand_offline by done. stored_case.
  - unfold reconnect, connectToAsterisk. stored_case.
  - unfold cleanup. destruct (amiSocket (set_reconnectTimer None st)); stored_case.
  - unfold onConnect. rewrite sendAmiCommand_offline by done. cbn [resume]. stored_case.
  - unfold onError, scheduleReconnect. cbn [reconnectTimer set_isConnected].
    destruct (reconnectTimer st);
      [|destruct (maxRetries <=? S (connectionAttempts (set_isConnected false st)))%nat];
      stored_case.
  - unfold onClose, scheduleReconnect. stored_case.
  - unfold handleAmiMessage. rewrite Hp, lookup_empty.
    unfold handleAmiEvent, handleIncomingCall, handleCallHangup, handleCallConnected,
      CallRepository.createCall, CallRepository.getCall.
    stored_case.
  - by destruct (Hone messages).
  - unfold reconnectTimerFired, connectToAsterisk. stored_case.
  - destruct (timers st !! n) as [t|]; [|stored_case].
    destruct (t_due t <=? now); [|stored_case].
    unfold actionTimeoutFired. cbn [pendingActions set_timers].
    rewrite Hp, lookup_empty. stored_case.
  - unfold handleIncomingWebhook. stored_case.
  - unfold handleDialStatus. stored_case.
  - unfold makeOutgoingCall. stored_case.
  - unfold endTwilioCall. stored_case.
  - stored_case.
Qed.

(** X10: in every state the service reaches, a notification of the PBX
    service emitted by a handler that runs alone (an exported operation, a
    webhook, a timer or socket callback, a socket read that completes at
    most one message) tells what the table holds when the handler is done:
    the call it names is stored and has the status the notification bears
    as its type. The handlers of a read that completes several messages
    interleave, and their notifications need not agree with the table
    ([interleaved_notification_differs]). *)
Theorem pbx_notification_matches_table (cfg : Config) (ins : list (Z * Input))
    (now : Z) (i : Input) (e : CallEvent) :
  let r := step now i (fst (run ins (initial cfg))) in
  runsAlone i = true →
  CallEventEmitted e ∈ snd r →
  ∃ c, CallRepository.getCall (ev_callId e) (calls (fst r)) = Some c
       ∧ status c = ev_type e.
Proof.
  pose proof (run_state_offline cfg ins) as Hoff.
  pose proof (run_keyed cfg ins) as Hk.
  set (st := fst (run ins (initial cfg))) in *. cbv zeta.
  unfold CallRepository.getCall. intros Halone.
  assert ((∃ messages, i = SocketData messages) ∨ ∀ messages, i ≠ SocketData messages)
    as [[messages ->]|Hone] by (destruct i; (by right) || (left; by eexists)).
  - destruct messages as [|[message rid] [|second rest]]; [| |discriminate].
    + intros Hin. by apply elem_of_nil in Hin.
    + cbn [step]. rewrite handleData_single.
      apply (step_notification_stored now (SocketMessage message rid) st e Hoff Hk).
      by intros messages.
  - by apply step_notification_stored.
Qed.

Lemma pbx_notification_matches_table_witness :
  ∃ c, CallRepository.getCall "17.1"
         (calls (fst (step 2000 (SocketData [(answeredEvent, "r2")])
                        (fst (run [(1000, SocketData [(newchannelEvent, "r1")])]
                                  (initial exampleConfig))))))
       = Some c
       ∧ status c = connected.
Proof.
  apply (pbx_notification_matches_table exampleConfig
           [(1000, SocketData [(newchannelEvent, "r1")])]
           2000 (SocketData [(answeredEvent, "r2")])
           (mkEvent connected "17.1" (DataChannel None))).
  - reflexivity.
  - vm_compute. apply list_elem_of_here.
Defined.

(** One read that completes an answered event and a Hangup event of the
    same call: both handlers read the record before either writes, nothing
    is emitted until both have written, and so the notification
    'connected' is emitted when the table holds the call as ended. *)
Lemma interleaved_notification_differs :
  let st := fst (run [(1000, SocketData [(newchannelEvent, "r1")])]
                     (initial exampleConfig)) in
  let r0 := startAll [(answeredEvent, "r2"); (hangupEvent, "r3")] 7000 st in
  let r1 := runRound r0.2 7000 r0.1.1 in
  let r2 := runRound r1.2 7000 r1.1.1 in
  r0.1.2 = [] ∧ r1.1.2 = []
  ∧ (status <$> calls r1.1.1 !! "17.1") = Some ended
  ∧ r2.1.2 = [CallEventEmitted (mkEvent connected "17.1" (DataChannel None));
              CallEventEmitted (mkEvent ended "17.1" (DataCause (Some "16") (Some 6)))]
  ∧ calls r2.1.1 = calls r1.1.1.
Proof. vm_compute. done. Qed.

(** X11: the answered event of the PBX (Newstate with channel state 6)
    moves a stored call to connected from every other status, ended and
    failed included, and touches nothing else: a call that was ended keeps
    its end time and its duration while its status is connected again. *)
Theorem answered_event_reopens_call (st : State) (c : Call) (event : AmiResponse)
    (rid : string) (now : Z) :
  event !! "ActionID" = None →
  fieldIs event "Event" "Newstate" = true →
  fieldIs event "ChannelState" "6" = true →
  truthy (event !! "Uniqueid") = true →
  CallRepository.getCall (default "" (event !! "Uniqueid")) (calls st) = Some c →
  status c ≠ connected →
  let r := step now (SocketMessage event rid) st in
  CallRepository.getCall (default "" (event !! "Uniqueid")) (calls (fst r))
  = Some (mkCall (id c) (from c) (to c) connected (startTime c) (endTime c)
                 (duration c) (channel c) (twilioCallSid c) (provider c))
  ∧ notifications (snd r)
    = [mkEvent connected (default "" (event !! "Uniqueid"))
               (DataChannel (event !! "Channel"))].
Proof.
  unfold CallRepository.getCall. intros Hid Hev Hstate Hu Hc Hs. cbv zeta.
  rewrite (answered_event_step event st c rid now) by done.
  rewrite bool_decide_eq_false_2 by done. cbn [negb fst snd calls set_calls].
  split; [|done]. by rewrite (updateCall_lookup _ _ _ c).
Qed.

Lemma answered_event_reopens_call_witness :
  CallRepository.getCall "c1"
    (calls (fst (step 9000 (SocketMessage
                              (<["Event" := "Newstate"]>
                                 (<["ChannelState" := "6"]> {[ "Uniqueid" := "c1" ]}))
                              "r1")
                      storeWithEndedCall)))
  = Some (mkCall "c1" "1001" "2000" connected 0 (Some 5000) (Some 5)
                 (Some "SIP/1001-7") None asterisk).
Proof.
  refine (proj1 (answered_event_reopens_call storeWithEndedCall endedCall
           (<["Event" := "Newstate"]> (<["ChannelState" := "6"]> {[ "Uniqueid" := "c1" ]}))
           "r1" 9000 _ _ _ _ _ _)); (reflexivity || discriminate).
Defined.

(** ** Reconnection, continued *)

Lemma scheduleReconnect_delays now st :
  Forall (fun d => d ∈ allowedDelays) (scheduledDelays (snd (scheduleReconnect now st))).
Proof.
  unfold scheduleReconnect. destruct (reconnectTimer st); [constructor|].
  destruct (Nat.leb_spec maxRetries (S (connectionAttempts st))) as [H|H];
    [constructor|].
  unfold maxRetries in H. cbn [snd scheduledDelays omap].
  constructor; [|constructor].
  destruct (connectionAttempts st) as [|[|[|[|n]]]]; [| | | |lia];
    unfold allowedDelays; rewrite !elem_of_cons; vm_compute; auto 10.
Qed.

Lemma sendAmiCommand_delays command params k now st r :
  sendAmiCommand command params k now st = Some r → scheduledDelays (snd r) = [].
Proof.
  unfold sendAmiCommand. destruct (_ || _); [done|]. by intros [= <-].
Qed.

Ltac delay_case :=
  repeat match goal with
  | |- context [sendAmiCommand ?c ?p ?k ?n ?s] =>
      let Hs := fresh "Hs" in
      destruct (sendAmiCommand c p k n s) as [[? ?]|] eqn:Hs;
      [apply sendAmiCommand_delays in Hs; simpl in Hs|]
  | |- context [match ?x with _ => _ end] => destruct x eqn:?
  end;
  simpl; rewrite ?scheduledDelays_app; simpl;
  try match goal with H : scheduledDelays _ = [] |- _ => rewrite H end;
  try done.

Lemma resume_delays k r now st :
  scheduledDelays (snd (resume k r now st)) = [].
Proof.
  destruct k, r; cbn [resume]; unfold finishMakeCall, finishHangup, finishReject;
    delay_case.
Qed.

Lemma handleAmiMessage_delays message rid now st :
  scheduledDelays (snd (handleAmiMessage message rid now st)) = [].
Proof.
  unfold handleAmiMessage.
  assert (scheduledDelays (snd (handleAmiEvent message rid now st)) = []) as Hev.
  { unfold handleAmiEvent, handleIncomingCall, handleCallHangup, handleCallConnected.
    delay_case. }
  destruct (truthy (message !! "ActionID")).
  - destruct (pendingActions st !! default "" (message !! "ActionID")).
    + apply resume_delays.
    + by destruct (truthy (message !! "Event")).
  - by destruct (truthy (message !! "Event")).
Qed.

Lemma scheduledDelays_none (out : list Output) :
  scheduledDelays out = [] ↔ Forall (fun o => scheduledDelays [o] = []) out.
Proof.
  induction out as [|o rest IH]; [done|].
  rewrite Forall_cons, <- IH. unfold scheduledDelays. cbn [omap].
  destruct o as [| | | | | | | |d [|aid]]; cbn; by intuition.
Qed.

Lemma handleData_delays messages now st :
  scheduledDelays (snd (handleData messages now st)) = [].
Proof.
  apply scheduledDelays_none.
  refine (proj2 (handleData_keeps (fun _ => True) (fun o => scheduledDelays [o] = [])
                   (fun t => match t with
                             | TEmit out => scheduledDelays out = []
                             | _ => True
                             end) messages now st I _ _)).
  - intros [message rid] _ s _. cbn [fst snd]. split; [done|].
    assert (Forall (fun o => scheduledDelays [o] = [])
              (startAmiEvent message rid now s).1.2
            ∧ Forall (fun t => match t with
                               | TEmit out => scheduledDelays out = []
                               | _ => True
                               end) (startAmiEvent message rid now s).2) as Hev.
    { unfold startAmiEvent, handleIncomingCall.
      repeat match goal with
      | |- context [if ?b then _ else _] => destruct b
      end; cbn [fst snd]; split; by repeat constructor. }
    unfold startAmiMessage.
    destruct (truthy (message !! "ActionID")).
    + destruct (pendingActions s !! default "" (message !! "ActionID")) as [k|].
      * destruct k; cbn [fst snd]; split; repeat constructor.
      * destruct (truthy (message !! "Event")); [done|]. by split.
    + destruct (truthy (message !! "Event")); [done|]. by split.
  - intros t Ht s _. split; [done|].
    destruct t as [out|event [c|]|event [c|]|k message]; cbn [runTask].
    + split; [by apply scheduledDelays_none|constructor].
    + split; by repeat constructor.
    + by split.
    + destruct (negb _); split; by repeat constructor.
    + by split.
    + pose proof (resume_delays k (inl message) now s) as Hr.
      destruct (awaitsRepository k message); cbn [fst snd]; split;
        repeat constructor; try done. by apply scheduledDelays_none.
Qed.

Lemma step_delays now i st :
  Forall (fun d => d ∈ allowedDelays) (scheduledDelays (snd (step now i st))).
Proof.
  assert (∀ out, scheduledDelays out = [] →
                 Forall (fun d => d ∈ allowedDelays) (scheduledDelays out)) as Hnone.
  { intros out ->. constructor. }
  destruct i; cbn [step].
  - apply Hnone. unfold makeCall, finishMakeCall. delay_case.
  - apply Hnone. unfold hangupCall, finishHangup. delay_case.
  - apply Hnone. unfold acceptCall. delay_case.
  - apply Hnone. unfold rejectCall, finishReject. delay_case.
  - by apply Hnone.
  - apply Hnone. unfold externalSend. delay_case.
  - by apply Hnone.
  - apply Hnone. unfold cleanup.
    by destruct (amiSocket (set_reconnectTimer None st)).
  - apply Hnone. unfold onConnect.
    destruct (sendAmiCommand "Login" _ KLogin now st) as [r|] eqn:Hs.
    + by apply sendAmiCommand_delays in Hs.
    + apply resume_delays.
  - unfold onError.
    pose proof (scheduleReconnect_delays now (set_isConnected false st)) as Hd.
    destruct (scheduleReconnect now (set_isConnected false st)) as [st2 out2].
    simpl in *. by destruct (connectionAttempts st =? 0)%nat.
  - apply scheduleReconnect_delays.
  - apply Hnone, handleAmiMessage_delays.
  - apply Hnone, handleData_delays.
  - apply Hnone. unfold reconnectTimerFired. delay_case.
  - apply Hnone.
    destruct (timers st !! n) as [t|]; [|done].
    destruct (t_due t <=? now); [|done].
    unfold actionTimeoutFired.
    destruct (pendingActions _ !! t_actionId t); [|done].
    apply resume_delays.
  - apply Hnone. unfold handleIncomingWebhook. delay_case.
  - apply Hnone. unfold handleDialStatus. delay_case.
  - apply Hnone. unfold makeOutgoingCall. delay_case.
  - apply Hnone. unfold endTwilioCall. delay_case.
  - by apply Hnone.
Qed.

(** X12: whatever happens, from any state of the client and along any
    run, every reconnect timer is armed with a delay of 2, 4, 8 or 16
    seconds; the cap of 30 seconds in [scheduleReconnect] is never the
    delay of a timer. *)
Theorem reconnect_delays_bounded (st : State) (ins : list (Z * Input)) :
  Forall (fun d => d ∈ allowedDelays) (scheduledDelays (snd (run ins st))).
Proof.
  revert st. induction ins as [|[now i] rest IH]; intros st; simpl.
  - constructor.
  - pose proof (step_delays now i st) as Hs.
    destruct (step now i st) as [st1 out1]. specialize (IH st1).
    destruct (run rest st1) as [st2 out2]. simpl in *.
    rewrite scheduledDelays_app. by apply Forall_app.
Qed.

(** ** Cleanup *)

Lemma cleanup_offline st : offline (fst (cleanup st)).
Proof.
  unfold cleanup. by destruct (amiSocket (set_reconnectTimer None st)).
Qed.

(** X13: [cleanup] clears the pending commands without settling them, and
    nothing settles them later: from any state, after [cleanup] and
    whatever follows, no command timeout has any effect and no message of
    the PBX, whatever ActionID it bears, settles a promise. A second
    [cleanup] changes nothing. *)
Theorem cleanup_drops_pending_commands (st : State) (ins : list (Z * Input))
    (now : Z) :
  let st1 := fst (cleanup st) in
  let st' := fst (run ins st1) in
  settled (snd (cleanup st)) = []
  ∧ cleanup st1 = (st1, [])
  ∧ pendingActions st' = ∅
  ∧ (∀ n, snd (step now (ActionTimerFired n) st') = [])
  ∧ (∀ message rid, settled (snd (step now (SocketMessage message rid) st')) = []).
Proof.
  intros st1 st'.
  destruct (run_offline ins st1 (cleanup_offline st)) as [[Hc Hp] _]. fold st' in Hc, Hp.
  split; [|split; [|split; [|split]]].
  - unfold cleanup. by destruct (amiSocket (set_reconnectTimer None st)).
  - subst st1. by destruct st as [? ? ? [?|] ? ? ? ? ?].
  - done.
  - intros n. cbn [step]. destruct (timers st' !! n) as [t|]; [|done].
    destruct (t_due t <=? now); [|done].
    unfold actionTimeoutFired. cbn [pendingActions set_timers].
    by rewrite Hp, lookup_empty.
  - intros message rid. cbn [step]. unfold handleAmiMessage.
    rewrite Hp, lookup_empty.
    pose proof (handleAmiEvent_settles_nothing message rid now st') as Hev.
    by destruct (truthy (message !! "ActionID")), (truthy (message !! "Event")).
Qed.

(** X14: [cleanup] does not stop the reconnection. When the socket reports
    'close' after [cleanup] and fewer than four attempts have failed so
    far, the client counts one more attempt and arms the reconnect timer
    again, and when that timer fires it opens a new socket to the
    configured host and port. *)
Theorem close_after_cleanup_reconnects (st : State) (now : Z) :
  (S (connectionAttempts st) < maxRetries)%nat →
  let delay := reconnectDelay (S (connectionAttempts st)) in
  let r1 := run [(now, Cleanup); (now, SocketClosed)] st in
  let r2 := step (now + delay) ReconnectTimerFired (fst r1) in
  snd r1 = match amiSocket st with Some _ => [SocketDestroy] | None => [] end
           ++ [SetTimeout delay ReconnectTimeout]
  ∧ reconnectTimer (fst r1) = Some (now + delay)
  ∧ connectionAttempts (fst r1) = S (connectionAttempts st)
  ∧ snd r2 = [SocketConnect (port (config st)) (host (config st))]
  ∧ amiSocket (fst r2) = Some NetSocket.
Proof.
  intros Hn. cbv zeta. cbn [run step]. unfold cleanup.
  destruct (amiSocket (set_reconnectTimer None st)) eqn:Hs; cbn [amiSocket set_reconnectTimer] in Hs;
    rewrite Hs; unfold onClose, scheduleReconnect;
    cbn [reconnectTimer connectionAttempts set_isConnected set_pendingActions
           set_amiSocket set_reconnectTimer];
    destruct (Nat.leb_spec maxRetries (S (connectionAttempts st))) as [H|H]; try lia;
    cbn [fst snd app]; unfold reconnectTimerFired;
    cbn [reconnectTimer set_reconnectTimer set_connectionAttempts];
    rewrite Z.leb_refl; done.
Qed.

Lemma close_after_cleanup_reconnects_witness :
  snd (run [(0, Cleanup); (0, SocketClosed)] (initial exampleConfig))
  = [SocketDestroy; SetTimeout 2000 ReconnectTimeout].
Proof.
  refine (proj1 (close_after_cleanup_reconnects (initial exampleConfig) 0 _)).
  vm_compute. lia.
Defined.

(** ** The cloud webhooks *)

Lemma mapTwilioStatus_not_outgoing (s : string) :
  mapTwilioStatusToCallStatus s ≠ outgoing.
Proof.
  unfold mapTwilioStatusToCallStatus.
  repeat match goal with
  | |- context [if ?b then _ else _] => destruct b
  end; discriminate.
Qed.

(** The status webhook on a stored call, in one equation. *)
Lemma webhook_stored (st : State) (body : WebhookBody) (c : Call)
    (tok : nat) (rid : string) (now : Z) :
  truthy (CallSid body) = true →
  calls st !! default "" (CallSid body) = Some c →
  handleIncomingWebhook tok body rid now st
  = let sid := default "" (CallSid body) in
    let s := mapTwilioStatusToCallStatus (CallStatus_ body) in
    if bool_decide (s = status c) then (st, [Settle tok (Resolved (VCallId sid))])
    else
      (set_calls (<[sid := merge c (if isFinalTwilioStatus (CallStatus_ body)
                                    then mkUpdate (Some s) (Some now)
                                                  (Some (elapsedSeconds now c))
                                    else statusUpdate s)]> (calls st)) st,
       [TwilioEventEmitted
          (mkEvent (if bool_decide (s = connected) then connected else ended) sid
                   (DataStatus s (CallStatus_ body)));
        Settle tok (Resolved (VCallId sid))]).
Proof.
  intros Ht Hc. unfold handleIncomingWebhook, CallRepository.getCall.
  rewrite (orElse_truthy _ _ Ht), Hc. cbv zeta.
  destruct (bool_decide (mapTwilioStatusToCallStatus (CallStatus_ body) = status c));
    [done|].
  cbn [negb]. unfold CallRepository.updateCall. by rewrite Hc.
Qed.

(** X15: a status webhook for a stored call always leaves the call with the
    status the lookup gives for the reported status, which is never
    outgoing (and failed for a status the lookup does not know, such as
    'initiated'); nothing but status, end time and duration changes; the
    end time and the elapsed whole seconds are written only when the status
    changes and the reported status is completed, busy, no-answer or
    failed; one notification is emitted if the status changes, of type
    'connected' for connected and 'ended' for every other status; the
    webhook answers with the call's identifier in either case. *)
Theorem webhook_sets_mapped_status (st : State) (body : WebhookBody) (c : Call)
    (tok : nat) (rid : string) (now : Z) :
  truthy (CallSid body) = true →
  CallRepository.getCall (default "" (CallSid body)) (calls st) = Some c →
  let sid := default "" (CallSid body) in
  let s := mapTwilioStatusToCallStatus (CallStatus_ body) in
  let r := handleIncomingWebhook tok body rid now st in
  ∃ c', CallRepository.getCall sid (calls (fst r)) = Some c'
        ∧ status c' = s ∧ s ≠ outgoing
        ∧ sameIdentity c c'
        ∧ (endTime c', duration c')
          = (if negb (bool_decide (s = status c)) && isFinalTwilioStatus (CallStatus_ body)
             then (Some now, Some ((now - startTime c) / 1000))
             else (endTime c, duration c))
        ∧ notifications (snd r)
          = (if bool_decide (s = status c) then []
             else [mkEvent (if bool_decide (s = connected) then connected else ended)
                           sid (DataStatus s (CallStatus_ body))])
        ∧ settled (snd r) = [(tok, Resolved (VCallId sid))].
Proof.
  unfold CallRepository.getCall. intros Ht Hc. cbv zeta.
  rewrite (webhook_stored st body c tok rid now Ht Hc). cbv zeta.
  pose proof (mapTwilioStatus_not_outgoing (CallStatus_ body)) as Hno.
  destruct (bool_decide (mapTwilioStatusToCallStatus (CallStatus_ body) = status c))
    eqn:Hs.
  - apply bool_decide_eq_true in Hs. exists c. cbn [fst snd negb andb].
    by repeat split.
  - cbn [fst snd negb andb calls set_calls]. rewrite lookup_insert_eq.
    eexists. split; [reflexivity|].
    destruct (isFinalTwilioStatus (CallStatus_ body)); by repeat split.
Qed.

Lemma webhook_sets_mapped_status_witness :
  ∃ c', CallRepository.getCall "CA1"
          (calls (fst (handleIncomingWebhook 1 initiatedWebhook "r1" 1000
                         storeWithLiveCalls))) = Some c'
        ∧ status c' = failed.
Proof.
  destruct (webhook_sets_mapped_status storeWithLiveCalls initiatedWebhook cloudCall
              1 "r1" 1000) as (c' & H1 & H2 & _); [reflexivity|reflexivity|].
  exists c'. split; [exact H1|exact H2].
Defined.

Lemma truthy_nonempty (s : string) : s ≠ "" → truthy (Some s) = true.
Proof. intros H. cbn [truthy]. by apply negb_true_iff, String.eqb_neq. Qed.

(** X16: an outgoing call placed through the cloud provider, followed by
    the four status callbacks it subscribes to ('initiated', 'ringing',
    'answered', reported as in-progress, and 'completed'): the first
    callback marks the call failed and the second incoming, each with a
    notification of type 'ended'; the call is connected with the third and
    ended with the fourth, which writes the end time and the whole seconds
    since the call was placed. *)
Theorem outgoing_cloud_call_callbacks (st : State) (tok : nat)
    (sid fromNumber toNumber rid : string) (f t d : string) (t0 t1 t2 t3 t4 : Z) :
  twilioClient (config st) = true →
  sid ≠ "" →
  let callback s := IncomingWebhook tok (mkWebhook (Some sid) f t s d) rid in
  let chan := Some ("Twilio/" +:+ sid) in
  let r := run [(t0, MakeOutgoingCall tok (inl (sid, fromNumber, toNumber)));
                (t1, callback "initiated"); (t2, callback "ringing");
                (t3, callback "in-progress"); (t4, callback "completed")] st in
  CallRepository.getCall sid (calls (fst r))
  = Some (mkCall sid fromNumber toNumber ended t0 (Some t4) (Some ((t4 - t0) / 1000))
                 chan (Some sid) twilio)
  ∧ notifications (snd r)
    = [mkEvent outgoing sid
               (DataCall (mkCall sid fromNumber toNumber outgoing t0 None None chan
                                 (Some sid) twilio));
       mkEvent ended sid (DataStatus failed "initiated");
       mkEvent ended sid (DataStatus incoming "ringing");
       mkEvent connected sid (DataStatus connected "in-progress");
       mkEvent ended sid (DataStatus ended "completed")].
Proof.
  intros Hcl Hsid callback chan r.
  pose proof (truthy_nonempty sid Hsid) as Ht.
  set (rec := fun s e dur =>
                mkCall sid fromNumber toNumber s t0 e dur chan (Some sid) twilio).
  set (ret := Settle tok (Resolved (VCallId sid))).
  set (moved := fun m c => set_calls (<[sid := c]> (calls m)) m).
  set (st0 := moved st (rec outgoing None None)).
  set (st1 := moved st0 (rec failed None None)).
  set (st2 := moved st1 (rec incoming None None)).
  set (st3 := moved st2 (rec connected None None)).
  set (st4 := moved st3 (rec ended (Some t4) (Some ((t4 - t0) / 1000)))).
  assert (step t0 (MakeOutgoingCall tok (inl (sid, fromNumber, toNumber))) st
          = (st0, [TwilioEventEmitted (mkEvent outgoing sid (DataCall (rec outgoing None None)));
                   ret])) as E0.
  { cbn [step]. unfold makeOutgoingCall. by rewrite Hcl. }
  assert (∀ m c s now, calls m !! sid = Some c →
            mapTwilioStatusToCallStatus s ≠ status c →
            step now (callback s) m
            = (moved m (merge c (if isFinalTwilioStatus s
                                 then mkUpdate (Some (mapTwilioStatusToCallStatus s))
                                               (Some now) (Some (elapsedSeconds now c))
                                 else statusUpdate (mapTwilioStatusToCallStatus s))),
               [TwilioEventEmitted
                  (mkEvent (if bool_decide (mapTwilioStatusToCallStatus s = connected)
                            then connected else ended) sid
                           (DataStatus (mapTwilioStatusToCallStatus s) s));
                ret])) as Hcb.
  { intros m c s now Hc Hs. subst callback. cbn [step].
    rewrite (webhook_stored m (mkWebhook (Some sid) f t s d) c tok rid now Ht Hc).
    cbv zeta.
    cbn [CallStatus_ CallSid default].
    by rewrite bool_decide_eq_false_2. }
  assert (step t1 (callback "initiated") st0
          = (st1, [TwilioEventEmitted (mkEvent ended sid (DataStatus failed "initiated"));
                   ret])) as E1.
  { apply (Hcb st0 (rec outgoing None None)); [apply lookup_insert_eq|discriminate]. }
  assert (step t2 (callback "ringing") st1
          = (st2, [TwilioEventEmitted (mkEvent ended sid (DataStatus incoming "ringing"));
                   ret])) as E2.
  { apply (Hcb st1 (rec failed None None)); [apply lookup_insert_eq|discriminate]. }
  assert (step t3 (callback "in-progress") st2
          = (st3, [TwilioEventEmitted
                     (mkEvent connected sid (DataStatus connected "in-progress"));
                   ret])) as E3.
  { apply (Hcb st2 (rec incoming None None)); [apply lookup_insert_eq|discriminate]. }
  assert (step t4 (callback "completed") st3
          = (st4, [TwilioEventEmitted (mkEvent ended sid (DataStatus ended "completed"));
                   ret])) as E4.
  { apply (Hcb st3 (rec connected None None)); [apply lookup_insert_eq|discriminate]. }
  subst r. cbn [run].
  rewrite E0. cbv beta iota zeta. rewrite E1. cbv beta iota zeta.
  rewrite E2. cbv beta iota zeta. rewrite E3. cbv beta iota zeta.
  rewrite E4. cbv beta iota zeta.
  split; [apply lookup_insert_eq|reflexivity].
Qed.

Lemma outgoing_cloud_call_callbacks_witness :
  CallRepository.getCall "CA1"
    (calls (fst (run [(0, MakeOutgoingCall 1 (inl ("CA1", "+15550001111", "+15551234567")));
                      (100, IncomingWebhook 1 initiatedWebhook "r");
                      (200, IncomingWebhook 1 ringingWebhook "r");
                      (5000, IncomingWebhook 1 answeredWebhook "r");
                      (65500, IncomingWebhook 1
                                (mkWebhook (Some "CA1") "+15550001111" "+15551234567"
                                           "completed" "outbound-api") "r")]
                     (initial exampleConfig))))
  = Some (mkCall "CA1" "+15550001111" "+15551234567" ended 0 (Some 65500) (Some 65)
                 (Some "Twilio/CA1") (Some "CA1") twilio).
Proof.
  refine (proj1 (outgoing_cloud_call_callbacks (initial exampleConfig) 1 "CA1"
                   "+15550001111" "+15551234567" "r" "+15550001111" "+15551234567"
                   "outbound-api" 0 100 200 5000 65500 _ _)).
  - reflexivity.
  - discriminate.
Defined.

(** X17: no operation of the cloud service reaches the socket clients: the
    forwarding listener hangs on the emitter of the PBX service, and the
    handlers of the cloud service, in any state and for any request, emit
    on their own emitter only. *)
Theorem cloud_calls_not_broadcast (st : State) (now : Z) (i : Input) :
  cloudOperation i = true → broadcasts (snd (step now i st)) = [].
Proof.
  destruct i; try discriminate; intros _; cbn [step].
  - unfold handleIncomingWebhook.
    repeat match goal with
    | |- context [match ?x with _ => _ end] => destruct x eqn:?
    end; done.
  - unfold handleDialStatus.
    repeat match goal with
    | |- context [match ?x with _ => _ end] => destruct x eqn:?
    end; done.
  - unfold makeOutgoingCall.
    repeat match goal with
    | |- context [match ?x with _ => _ end] => destruct x eqn:?
    end; done.
  - unfold endTwilioCall.
    repeat match goal with
    | |- context [match ?x with _ => _ end] => destruct x eqn:?
    end; done.
Qed.

Lemma cloud_calls_not_broadcast_witness :
  broadcasts (snd (step 1000 (IncomingWebhook 1 answeredWebhook "r1") storeWithLiveCalls))
  = [].
Proof. apply cloud_calls_not_broadcast. reflexivity. Defined.

(** ** The unified call service *)

Lemma innerOutcome_settle (tok : nat) (o : Outcome) :
  CallService.innerOutcome tok [Settle tok o] = Some o.
Proof. unfold CallService.innerOutcome. cbn. by rewrite Nat.eqb_refl. Qed.

Lemma innerOutcome_pbx (tok : nat) (e : CallEvent) (o : Outcome) :
  CallService.innerOutcome tok [CallEventEmitted e; Settle tok o] = Some o.
Proof. unfold CallService.innerOutcome. cbn. by rewrite Nat.eqb_refl. Qed.

Lemma innerOutcome_cloud (tok : nat) (e : CallEvent) (o : Outcome) :
  CallService.innerOutcome tok [TwilioEventEmitted e; Settle tok o] = Some o.
Proof. unfold CallService.innerOutcome. cbn. by rewrite Nat.eqb_refl. Qed.

(** X18: [initiateCall] in any state the service reaches. A request routed
    to the PBX always succeeds: it answers with the generated identifier,
    the provider asterisk and the message naming it, and the call is stored
    as outgoing. A request routed to the cloud provider fails, with the
    prefixed message of the cloud service and no change of state, when the
    credentials are missing or the provider's API refuses; otherwise it
    answers with the identifier the provider assigned. *)
Theorem initiateCall_routes (cfg : Config) (ins : list (Z * Input)) (tok : nat)
    (fromNumber toNumber : string) (p : option Provider) (rid : string) (rnd : nat)
    (sdk : string * string * string + string) (now : Z) :
  let st := fst (run ins (initial cfg)) in
  let r := CallService.initiateCall tok fromNumber toNumber p rid rnd sdk now st in
  match determineProvider (mkRequest fromNumber toNumber p) with
  | asterisk =>
      r.2 = Some (CallService.Done
                    (CallService.Initiated rid "Call initiated successfully via asterisk"
                                           asterisk))
      ∧ CallRepository.getCall rid (calls r.1.1)
        = Some (mkCall rid fromNumber toNumber outgoing now None None
                       (Some ("SIP/" +:+ fromNumber +:+ "-" +:+ pretty rnd)) None asterisk)
  | twilio =>
      if twilioClient (config st) then
        match sdk with
        | inl (sid, f, t) =>
            r.2 = Some (CallService.Done
                          (CallService.Initiated sid "Call initiated successfully via twilio"
                                                 twilio))
            ∧ CallRepository.getCall sid (calls r.1.1)
              = Some (mkCall sid f t outgoing now None None (Some ("Twilio/" +:+ sid))
                             (Some sid) twilio)
        | inr e =>
            r.2 = Some (CallService.Failed ("Failed to initiate call: " +:+ e))
            ∧ r.1.1 = st ∧ notifications r.1.2 = []
        end
      else
        r.2 = Some (CallService.Failed
                      "Failed to initiate call: Twilio client not initialized. Please check your Twilio credentials.")
        ∧ r.1.1 = st ∧ notifications r.1.2 = []
  end.
Proof.
  destruct (run_state_offline cfg ins) as [Hc _].
  set (st := fst (run ins (initial cfg))) in *. cbv zeta.
  unfold CallService.initiateCall, CallRepository.getCall.
  destruct (determineProvider (mkRequest fromNumber toNumber p)).
  - rewrite bool_decide_eq_false_2 by discriminate.
    unfold makeCall, finishMakeCall. rewrite Hc. cbn [fst snd calls set_calls].
    rewrite innerOutcome_pbx.
    split; [done|]. apply lookup_insert_eq.
  - rewrite bool_decide_eq_true_2 by done.
    unfold makeOutgoingCall.
    destruct (twilioClient (config st)); cbn [negb fst snd].
    + destruct sdk as [[[sid f] t]|e]; cbn [fst snd calls set_calls].
      * rewrite innerOutcome_cloud.
        split; [done|]. apply lookup_insert_eq.
      * by rewrite innerOutcome_settle.
    + by rewrite innerOutcome_settle.
Qed.

(** X19: the errors of [endCall], [acceptCall] and [rejectCall], in any
    state. For an identifier that is not stored all three fail with 'Call
    not found' behind their prefix. [acceptCall] refuses a call of the
    cloud provider, and it passes on the refusal of the PBX service for a
    PBX call that is not incoming, as [rejectCall] does. Without cloud
    credentials [endCall] and [rejectCall] fail on a cloud call. None of
    these changes the state or emits a notification. *)
Theorem call_service_errors (st : State) (tok : nat) (callId : string)
    (sdk : option string) (now : Z) :
  (CallRepository.getCall callId (calls st) = None →
   CallService.endCall tok callId sdk now st
   = (st, [], Some (CallService.Failed "Failed to end call: Call not found"))
   ∧ CallService.acceptCall tok callId st
     = (st, [], Some (CallService.Failed "Failed to accept call: Call not found"))
   ∧ CallService.rejectCall tok callId sdk now st
     = (st, [], Some (CallService.Failed "Failed to reject call: Call not found")))
  ∧ (∀ c, CallRepository.getCall callId (calls st) = Some c →
       (provider c = twilio →
        CallService.acceptCall tok callId st
        = (st, [],
           Some (CallService.Failed
                   "Failed to accept call: Twilio calls are automatically handled by webhooks")))
       ∧ (provider c = asterisk → status c ≠ incoming →
          CallService.acceptCall tok callId st
          = (st, [Settle tok (Rejected "Call is not in incoming state")],
             Some (CallService.Failed "Failed to accept call: Call is not in incoming state"))
          ∧ CallService.rejectCall tok callId sdk now st
            = (st, [Settle tok (Rejected "Call is not in incoming state")],
               Some (CallService.Failed "Failed to reject call: Call is not in incoming state")))
       ∧ (provider c = twilio → twilioClient (config st) = false →
          CallService.endCall tok callId sdk now st
          = (st, [Settle tok (Rejected noTwilioClient)],
             Some (CallService.Failed ("Failed to end call: " +:+ noTwilioClient)))
          ∧ CallService.rejectCall tok callId sdk now st
            = (st, [Settle tok (Rejected noTwilioClient)],
               Some (CallService.Failed ("Failed to reject call: " +:+ noTwilioClient))))).
Proof.
  unfold CallService.endCall, CallService.acceptCall, CallService.rejectCall.
  split.
  - by intros ->.
  - intros c Hc. rewrite Hc. split; [|split].
    + by intros ->.
    + intros Hp Hs. rewrite Hp.
      rewrite bool_decide_eq_true_2 by done.
      unfold acceptCall, rejectCall. rewrite Hc.
      rewrite bool_decide_eq_false_2 by done. cbn [negb fst snd].
      by rewrite innerOutcome_settle.
    + intros Hp Hcl. rewrite Hp.
      rewrite bool_decide_eq_true_2 by done.
      rewrite bool_decide_eq_false_2 by discriminate.
      unfold endTwilioCall. rewrite Hcl. cbn [negb fst snd].
      by rewrite innerOutcome_settle.
Qed.

Lemma call_service_errors_witness :
  CallService.acceptCall 1 "CA1" storeWithLiveCalls
  = (storeWithLiveCalls, [],
     Some (CallService.Failed
             "Failed to accept call: Twilio calls are automatically handled by webhooks"))
  ∧ CallService.endCall 1 "nobody" None 0 storeWithLiveCalls
    = (storeWithLiveCalls, [],
       Some (CallService.Failed "Failed to end call: Call not found")).
Proof.
  destruct (call_service_errors storeWithLiveCalls 1 "CA1" None 0) as [_ H].
  destruct (H cloudCall) as [Ha _]; [reflexivity|].
  destruct (call_service_errors storeWithLiveCalls 1 "nobody" None 0) as [H' _].
  destruct H' as [He _]; [reflexivity|].
  split; [apply Ha; reflexivity|exact He].
Defined.

(** X20: [endCall] ends a stored call through the provider recorded in the
    call, whatever the numbers look like. In a state the service reaches, a
    PBX call with a channel is ended locally, with end time and elapsed
    whole seconds, and the answer names asterisk. A cloud call is ended
    through the provider's API, with end time but no duration, and the
    answer names twilio; the refusal of the API is passed on with the
    prefix and leaves the record as it was. *)
Theorem endCall_by_recorded_provider (cfg : Config) (ins : list (Z * Input))
    (tok : nat) (callId : string) (c : Call) (sdk : option string) (now : Z) :
  let st := fst (run ins (initial cfg)) in
  CallRepository.getCall callId (calls st) = Some c →
  let r := CallService.endCall tok callId sdk now st in
  match provider c with
  | asterisk =>
      truthy (channel c) = true →
      r.2 = Some (CallService.Done (CallService.Message "Call ended successfully via asterisk"))
      ∧ CallRepository.getCall callId (calls r.1.1)
        = Some (mkCall (id c) (from c) (to c) ended (startTime c) (Some now)
                       (Some ((now - startTime c) / 1000)) (channel c)
                       (twilioCallSid c) asterisk)
      ∧ notifications r.1.2
        = [mkEvent ended callId (DataCause (Some "hangup")
                                           (Some ((now - startTime c) / 1000)))]
  | twilio =>
      twilioClient (config st) = true → truthy (twilioCallSid c) = true →
      match sdk with
      | None =>
          r.2 = Some (CallService.Done (CallService.Message "Call ended successfully via twilio"))
          ∧ CallRepository.getCall callId (calls r.1.1)
            = Some (mkCall (id c) (from c) (to c) ended (startTime c) (Some now)
                           (duration c) (channel c) (twilioCallSid c) twilio)
          ∧ notifications r.1.2 = [mkEvent ended callId (DataCause (Some "hangup") None)]
      | Some e =>
          r.2 = Some (CallService.Failed ("Failed to end call: " +:+ e))
          ∧ r.1.1 = st ∧ notifications r.1.2 = []
      end
  end.
Proof.
  destruct (run_state_offline cfg ins) as [Hc _].
  set (st := fst (run ins (initial cfg))) in *. cbv zeta.
  unfold CallService.endCall, CallRepository.getCall. intros Hcall. rewrite Hcall.
  destruct (provider c) eqn:Hp.
  - intros Hch. rewrite bool_decide_eq_false_2 by discriminate.
    unfold hangupCall, CallRepository.getCall. rewrite Hcall, Hch, Hc.
    unfold finishHangup. cbn [fst snd calls set_calls].
    rewrite innerOutcome_pbx. rewrite (updateCall_lookup _ _ _ c Hcall).
    split; [done|]. split; [|done]. unfold merge, endedUpdate, elapsedSeconds.
    cbn. by rewrite Hp.
  - intros Hcl Hsid. rewrite bool_decide_eq_true_2 by done.
    unfold endTwilioCall, CallRepository.getCall. rewrite Hcl, Hcall, Hsid.
    cbn [negb]. destruct sdk as [e|]; cbn [fst snd calls set_calls].
    + by rewrite innerOutcome_settle.
    + rewrite innerOutcome_cloud. rewrite (updateCall_lookup _ _ _ c Hcall).
      split; [done|]. split; [|done]. unfold merge, endedUpdate. cbn. by rewrite Hp.
Qed.

Lemma endCall_by_recorded_provider_witness :
  (CallService.endCall 3 "c1" None 5000
     (fst (run [(0, SimulateIncomingCall 1 "1001" "1001" "c1" 7)]
               (initial exampleConfig)))).2
  = Some (CallService.Done (CallService.Message "Call ended successfully via asterisk")).
Proof.
  refine (proj1 (endCall_by_recorded_provider exampleConfig
                   [(0, SimulateIncomingCall 1 "1001" "1001" "c1" 7)] 3 "c1"
                   (mkCall "c1" "1001" "1001" incoming 0 None None
                           (Some "SIP/simulated-7") None asterisk)
                   None 5000 _ _)).
  - vm_compute. reflexivity.
  - reflexivity.
Defined.

(** X21: [endCall] can report success without ending anything. A status
    webhook without a CallSid that reports a ringing or running call stores
    a cloud call under a generated identifier and without a cloud
    identifier; with cloud credentials present, [endCall] on that call
    answers 'Call ended successfully via twilio' while the record, and the
    whole state, stay as they were and no notification is emitted. *)
Theorem endCall_reports_success_without_ending (st : State) (tok tok' : nat)
    (body : WebhookBody) (rid : string) (sdk : option string) (now now' : Z) :
  truthy (CallSid body) = false →
  CallStatus_ body = "ringing" ∨ CallStatus_ body = "in-progress" →
  CallRepository.getCall rid (calls st) = None →
  twilioClient (config st) = true →
  let st1 := fst (handleIncomingWebhook tok body rid now st) in
  (∃ c, CallRepository.getCall rid (calls st1) = Some c
        ∧ provider c = twilio ∧ startTime c = now ∧ endTime c = None
        ∧ status c = if String.eqb (Direction body) "inbound" then incoming else outgoing)
  ∧ CallService.endCall tok' rid sdk now' st1
    = (st1, [Settle tok' (Resolved VVoid)],
       Some (CallService.Done (CallService.Message "Call ended successfully via twilio"))).
Proof.
  unfold CallRepository.getCall. intros Ht Hs Hnone Hcl. cbv zeta.
  unfold handleIncomingWebhook, CallRepository.getCall, orElse. rewrite Ht, Hnone.
  assert (String.eqb (CallStatus_ body) "ringing"
          || String.eqb (CallStatus_ body) "in-progress" = true) as ->.
  { by destruct Hs as [-> | ->]. }
  cbn [fst snd]. unfold CallRepository.createCall. cbn [id calls set_calls].
  split.
  - eexists. rewrite lookup_insert_eq. split; [reflexivity|]. by repeat split.
  - unfold CallService.endCall, CallRepository.getCall. cbn [calls set_calls].
    rewrite lookup_insert_eq. cbn [provider].
    rewrite bool_decide_eq_true_2 by done.
    unfold endTwilioCall, CallRepository.getCall. cbn [config set_calls calls].
    rewrite Hcl, lookup_insert_eq. cbn [negb twilioCallSid]. rewrite Ht.
    cbn [fst snd]. by rewrite innerOutcome_settle.
Qed.

Lemma endCall_reports_success_without_ending_witness :
  let st1 := fst (handleIncomingWebhook 1
                    (mkWebhook None "+15550001111" "+15551234567" "ringing" "inbound")
                    "r1" 1000 (initial exampleConfig)) in
  CallService.endCall 2 "r1" None 2000 st1
  = (st1, [Settle 2 (Resolved VVoid)],
     Some (CallService.Done (CallService.Message "Call ended successfully via twilio"))).
Proof.
  refine (proj2 (endCall_reports_success_without_ending (initial exampleConfig) 1 2
                   (mkWebhook None "+15550001111" "+15551234567" "ringing" "inbound")
                   "r1" None 1000 2000 _ _ _ _)).
  - reflexivity.
  - left. reflexivity.
  - reflexivity.
  - reflexivity.
Defined.

(** ** Framing of the socket data *)

Section Framing.

Local Open Scope nat_scope.

Lemma string_length_app (s1 s2 : string) :
  String.length (s1 +:+ s2) = String.length s1 + String.length s2.
Proof. induction s1 as [|c s1 IH]; [done|]. rewrite ?string_app_cons. simpl. by rewrite IH. Qed.

Lemma startsWith_length (n s : string) :
  startsWith n s = true → String.length n ≤ String.length s.
Proof.
  revert s. induction n as [|a n IH]; intros [|b s]; simpl; try done; try lia.
  intros [_ H]%andb_true_iff. apply IH in H. lia.
Qed.

Lemma startsWith_app (n s d : string) :
  startsWith n s = true → startsWith n (s +:+ d) = true.
Proof.
  revert s. induction n as [|a n IH]; intros [|b s]; simpl; try done.
  intros [Hab H]%andb_true_iff. rewrite ?string_app_cons. simpl.
  by rewrite Hab, (IH s H).
Qed.

Lemma startsWith_false_app (n s d : string) :
  startsWith n s = false → String.length n ≤ String.length s →
  startsWith n (s +:+ d) = false.
Proof.
  revert s. induction n as [|a n IH]; intros [|b s]; simpl; try done; try lia.
  intros H Hl. rewrite ?string_app_cons. simpl.
  destruct (Ascii.eqb a b); [|done]. simpl in *. apply IH; [done|lia].
Qed.

Lemma startsWith_substringTo (n : string) (k : nat) (s : string) :
  startsWith n (substringTo k s) = true → startsWith n s = true.
Proof.
  revert k s. induction n as [|a n IH]; intros k s; [by destruct s|].
  destruct k as [|k], s as [|b s]; simpl; try done.
  intros [Hab H]%andb_true_iff. rewrite Hab. simpl. by apply (IH k).
Qed.

Lemma startsWith_split (n s : string) :
  startsWith n s = true → s = n +:+ substringFrom (String.length n) s.
Proof.
  revert s. induction n as [|a n IH]; intros s; [by destruct s|].
  destruct s as [|b s]; simpl; [done|].
  intros [Hab H]%andb_true_iff. apply Ascii.eqb_eq in Hab as ->.
  rewrite ?string_app_cons. f_equal. by apply IH.
Qed.

Lemma indexOf_unfold (n s : string) :
  indexOf n s
  = if startsWith n s then Some 0
    else match s with
         | EmptyString => None
         | String _ rest => option_map S (indexOf n rest)
         end.
Proof. by destruct s. Qed.

Lemma indexOf_bound (n s : string) (i : nat) :
  indexOf n s = Some i → i + String.length n ≤ String.length s.
Proof.
  revert i. induction s as [|c s IH]; intros i; rewrite indexOf_unfold.
  - destruct (startsWith n "") eqn:Hs; [|done].
    intros [= <-]. by apply startsWith_length in Hs.
  - destruct (startsWith n (String c s)) eqn:Hs.
    + intros [= <-]. by apply startsWith_length in Hs.
    + destruct (indexOf n s) as [j|]; [|done]. intros [= <-].
      specialize (IH j eq_refl). simpl. lia.
Qed.

Lemma indexOf_app (n s d : string) (i : nat) :
  indexOf n s = Some i → indexOf n (s +:+ d) = Some i.
Proof.
  revert i. induction s as [|c s IH]; intros i; rewrite indexOf_unfold.
  - destruct (startsWith n "") eqn:Hs; [|done]. intros [= <-].
    rewrite indexOf_unfold. by rewrite (startsWith_app _ _ d Hs).
  - destruct (startsWith n (String c s)) eqn:Hs.
    + intros [= <-]. rewrite indexOf_unfold. by rewrite (startsWith_app _ _ d Hs).
    + destruct (indexOf n s) as [j|] eqn:Hj; [|done]. intros [= <-].
      pose proof (indexOf_bound _ _ _ Hj) as Hb.
      rewrite indexOf_unfold.
      rewrite startsWith_false_app by (simpl; (done || lia)).
      rewrite ?string_app_cons. by rewrite (IH j eq_refl).
Qed.

Lemma indexOf_startsWith (n s : string) (i : nat) :
  indexOf n s = Some i → startsWith n (substringFrom i s) = true.
Proof.
  revert i. induction s as [|c s IH]; intros i; rewrite indexOf_unfold.
  - destruct (startsWith n "") eqn:Hs; [|done]. by intros [= <-].
  - destruct (startsWith n (String c s)) eqn:Hs.
    + by intros [= <-].
    + destruct (indexOf n s) as [j|] eqn:Hj; [|done]. intros [= <-].
      simpl. by apply IH.
Qed.

Lemma indexOf_before (n s : string) (i : nat) :
  n ≠ "" → indexOf n s = Some i → indexOf n (substringTo i s) = None.
Proof.
  intros Hn. revert i. induction s as [|c s IH]; intros i; rewrite indexOf_unfold.
  - destruct (startsWith n "") eqn:Hs; [|done]. by destruct n.
  - destruct (startsWith n (String c s)) eqn:Hs.
    + intros [= <-]. by destruct n.
    + destruct (indexOf n s) as [j|] eqn:Hj; [|done]. intros [= <-].
      cbn [substringTo]. rewrite indexOf_unfold.
      destruct (startsWith n (String c (substringTo j s))) eqn:Hs'.
      * apply (startsWith_substringTo n (S j) (String c s)) in Hs'. congruence.
      * by rewrite (IH j eq_refl).
Qed.

Lemma substring_split (i : nat) (s : string) :
  substringTo i s +:+ substringFrom i s = s.
Proof.
  revert s. induction i as [|i IH]; intros [|c s]; simpl; try done.
  rewrite ?string_app_cons. by rewrite IH.
Qed.

Lemma substringFrom_add (i j : nat) (s : string) :
  substringFrom (i + j) s = substringFrom j (substringFrom i s).
Proof.
  revert s. induction i as [|i IH]; intros s; [done|].
  destruct s as [|c s]; simpl; [by destruct j|]. apply IH.
Qed.

Lemma substringFrom_length (i : nat) (s : string) :
  String.length (substringFrom i s) = String.length s - i.
Proof.
  revert s. induction i as [|i IH]; intros [|c s]; simpl; try done; try lia.
Qed.

Lemma substringTo_app (i : nat) (s d : string) :
  i ≤ String.length s → substringTo i (s +:+ d) = substringTo i s.
Proof.
  revert s. induction i as [|i IH]; intros [|c s]; simpl; try done; try lia.
  intros H. rewrite IH; [done|lia].
Qed.

Lemma substringFrom_app (i : nat) (s d : string) :
  i ≤ String.length s → substringFrom i (s +:+ d) = substringFrom i s +:+ d.
Proof.
  revert s. induction i as [|i IH]; intros [|c s]; simpl; try done; try lia.
  all: try (intros H; apply IH; lia).
Qed.

(** One turn of the loop, as an equation. *)
Lemma drainBuffer_found (fuel i : nat) (s : string) :
  indexOf messageEnd s = Some i →
  drainBuffer (S fuel) s
  = (substringTo i s :: (drainBuffer fuel (substringFrom (i + 4) s)).1,
     (drainBuffer fuel (substringFrom (i + 4) s)).2).
Proof.
  intros Hi. cbn [drainBuffer]. rewrite Hi.
  by destruct (drainBuffer fuel (substringFrom (i + 4) s)).
Qed.

Lemma drainBuffer_none (fuel : nat) (s : string) :
  indexOf messageEnd s = None → drainBuffer fuel s = ([], s).
Proof. intros Hi. destruct fuel; [done|]. cbn [drainBuffer]. by rewrite Hi. Qed.

Lemma messageEnd_cut (i : nat) (s : string) :
  indexOf messageEnd s = Some i →
  s = substringTo i s +:+ messageEnd +:+ substringFrom (i + 4) s
  ∧ String.length (substringFrom (i + 4) s) + 4 ≤ String.length s.
Proof.
  intros Hi. pose proof (indexOf_bound _ _ _ Hi) as Hb.
  apply indexOf_startsWith, startsWith_split in Hi.
  split.
  - rewrite <- (substring_split i s) at 1. f_equal.
    rewrite substringFrom_add. exact Hi.
  - rewrite substringFrom_length.
    change (String.length messageEnd) with 4 in Hb. lia.
Qed.

(** The length of the buffer is fuel enough: more fuel changes nothing. *)
Lemma drainBuffer_fuel (f1 f2 : nat) (s : string) :
  String.length s ≤ f1 → String.length s ≤ f2 →
  drainBuffer f1 s = drainBuffer f2 s.
Proof.
  revert f2 s. induction f1 as [|f1 IH]; intros f2 s H1 H2.
  - destruct s; [|simpl in H1; lia]. by destruct f2.
  - destruct f2 as [|f2].
    { destruct s; [done|simpl in H2; lia]. }
    destruct (indexOf messageEnd s) as [i|] eqn:Hi.
    + rewrite !(drainBuffer_found _ i) by done.
      destruct (messageEnd_cut i s Hi) as [_ Hl].
      by rewrite (IH f2) by lia.
    + by rewrite !drainBuffer_none.
Qed.

Lemma drainBuffer_spec (fuel : nat) (s : string) :
  String.length s ≤ fuel →
  s = String.concat "" (map (fun m => m +:+ messageEnd) (drainBuffer fuel s).1)
      +:+ (drainBuffer fuel s).2
  ∧ indexOf messageEnd (drainBuffer fuel s).2 = None
  ∧ Forall (fun m => indexOf messageEnd m = None) (drainBuffer fuel s).1.
Proof.
  revert s. induction fuel as [|fuel IH]; intros s Hl.
  - destruct s; [|simpl in Hl; lia]. by repeat split.
  - destruct (indexOf messageEnd s) as [i|] eqn:Hi.
    + rewrite (drainBuffer_found _ i) by done. cbn [fst snd map].
      destruct (messageEnd_cut i s Hi) as [Hcut Hlen].
      destruct (IH (substringFrom (i + 4) s)) as (Hrec & Hrest & Hms); [lia|].
      split; [|split; [done|]].
      * rewrite concat_cons, !string_app_assoc. rewrite <- Hrec. exact Hcut.
      * constructor; [|done]. by apply indexOf_before.
    + rewrite drainBuffer_none by done. by repeat split.
Qed.

(** X22: the 'data' callback loses and invents nothing. The buffer kept
    from before, followed by the new data, is the delivered messages, each
    followed by its blank line, followed by the buffer that is kept; the
    kept buffer holds no blank line, so no complete message waits in it,
    and no delivered message holds one. *)
Theorem receive_splits_buffer (buffer data : string) :
  let r := receive buffer data in
  buffer +:+ data
  = String.concat "" (map (fun m => m +:+ messageEnd) r.1) +:+ r.2
  ∧ indexOf messageEnd r.2 = None
  ∧ Forall (fun m => indexOf messageEnd m = None) r.1.
Proof. apply drainBuffer_spec. done. Qed.

Lemma drainBuffer_app (f : nat) (s d : string) :
  String.length s ≤ f →
  drainBuffer (String.length (s +:+ d)) (s +:+ d)
  = ((drainBuffer f s).1
     ++ (drainBuffer (String.length ((drainBuffer f s).2 +:+ d))
                     ((drainBuffer f s).2 +:+ d)).1,
     (drainBuffer (String.length ((drainBuffer f s).2 +:+ d))
                  ((drainBuffer f s).2 +:+ d)).2).
Proof.
  revert s. induction f as [|f IH]; intros s Hl.
  - destruct s; [|simpl in Hl; lia]. cbn [drainBuffer fst snd app].
    by destruct (drainBuffer _ _).
  - destruct (indexOf messageEnd s) as [i|] eqn:Hi.
    + rewrite (drainBuffer_found f i) by done. cbn [fst snd].
      destruct (messageEnd_cut i s Hi) as [_ Hlen].
      pose proof (indexOf_bound _ _ _ Hi) as Hb.
      change (String.length messageEnd) with 4 in Hb.
      assert (String.length (s +:+ d) = S (String.length (s +:+ d) - 1)) as ->.
      { rewrite string_length_app. lia. }
      rewrite (drainBuffer_found _ i) by (by apply indexOf_app).
      rewrite substringTo_app by lia. rewrite substringFrom_app by lia.
      rewrite (drainBuffer_fuel _ (String.length (substringFrom (i + 4) s +:+ d))).
      * rewrite (IH (substringFrom (i + 4) s)) by lia. done.
      * rewrite !string_length_app. lia.
      * done.
    + rewrite (drainBuffer_none (S f)) by done. cbn [fst snd app].
      by destruct (drainBuffer _ _).
Qed.

Lemma receive_app (buffer data1 data2 : string) :
  receive buffer (data1 +:+ data2)
  = ((receive buffer data1).1 ++ (receive (receive buffer data1).2 data2).1,
     (receive (receive buffer data1).2 data2).2).
Proof.
  unfold receive. rewrite <- string_app_assoc.
  apply drainBuffer_app. done.
Qed.

Lemma decodeFrom_app (st : Utf8State) (data1 data2 : list Byte.byte) :
  decodeFrom st (data1 ++ data2)
  = ((decodeFrom st data1).1 +:+ (decodeFrom (decodeFrom st data1).2 data2).1,
     (decodeFrom (decodeFrom st data1).2 data2).2).
Proof.
  revert st. induction data1 as [|b rest IH]; intros st.
  - cbn [app decodeFrom fst snd]. by destruct (decodeFrom st data2).
  - cbn [app decodeFrom]. destruct (feed st b) as [text1 st1].
    rewrite IH. destruct (decodeFrom st1 rest) as [text2 st2]. cbn [fst snd].
    destruct (decodeFrom st2 data2) as [text3 st3]. cbn [fst snd].
    by rewrite string_app_assoc.
Qed.

(** Decoding two chunks one by one gives the text of the two decoded as
    one when the first ends between two characters. *)
Lemma toString_app (data1 data2 : list Byte.byte) :
  endsBetweenCharacters data1 →
  toString (data1 ++ data2) = toString data1 +:+ toString data2.
Proof.
  unfold endsBetweenCharacters, toString. intros Hend.
  rewrite decodeFrom_app, Hend.
  destruct (decodeFrom idle data1) as [text1 st1]. cbn [fst snd] in *. subst st1.
  destruct (decodeFrom idle data2) as [text2 st2].
  change (flush idle) with "". by rewrite string_app_nil_r, string_app_assoc.
Qed.

(** A chunk of ASCII bytes is its own text and ends between two
    characters. *)
Lemma decodeFrom_ascii (data : list Byte.byte) :
  Forall (fun b => (Byte.to_N b < 128)%N) data →
  decodeFrom idle data = (string_of_list_byte data, idle).
Proof.
  induction 1 as [|b rest Hb _ IH]; [done|].
  cbn [decodeFrom]. change (feed idle b) with (lead b). unfold lead.
  apply N.ltb_lt in Hb. rewrite Hb, IH. reflexivity.
Qed.

(** On a chunk of ASCII bytes the callback works on the text these bytes
    spell. *)
Lemma receiveChunk_ascii (buffer : string) (data : list Byte.byte) :
  Forall (fun b => (Byte.to_N b < 128)%N) data →
  receiveChunk buffer data = receive buffer (string_of_list_byte data).
Proof.
  intros Hdata. unfold receiveChunk, toString.
  rewrite decodeFrom_ascii by done. change (flush idle) with "".
  by rewrite string_app_nil_r.
Qed.

(** X23: how the stream is cut into chunks does not matter as long as no
    chunk ends inside a character. When the first of two chunks ends
    between two characters (as every chunk of ASCII bytes does,
    [decodeFrom_ascii]), the two handed to the 'data' callback one after
    the other deliver the same messages in the same order, and leave the
    same buffer, as the two handed over as one. A chunk that ends inside a
    character is decoded on its own, and the message differs
    ([split_character_changes_message]). *)
Theorem receive_chunk_invariant (buffer : string) (data1 data2 : list Byte.byte) :
  endsBetweenCharacters data1 →
  let r1 := receiveChunk buffer data1 in
  let r2 := receiveChunk r1.2 data2 in
  receiveChunk buffer (data1 ++ data2) = (r1.1 ++ r2.1, r2.2).
Proof.
  intros Hend. cbv zeta. unfold receiveChunk.
  rewrite toString_app by done. apply receive_app.
Qed.

Lemma receive_chunk_invariant_witness :
  let data1 := list_byte_of_string "Event: Hangup"
               ++ [Byte.x0d; Byte.x0a; Byte.x0d; Byte.x0a; Byte.xc3; Byte.xa9] in
  let data2 := list_byte_of_string "vent: Newstate" ++ [Byte.x0d; Byte.x0a; Byte.x0d] in
  let r1 := receiveChunk "" data1 in
  let r2 := receiveChunk r1.2 data2 in
  receiveChunk "" (data1 ++ data2) = (r1.1 ++ r2.1, r2.2).
Proof.
  intros data1 data2. apply (receive_chunk_invariant "" data1 data2).
  vm_compute. reflexivity.
Defined.

(** The character U+00E9 of a channel name, C3 A9, with the end of a chunk
    between its two bytes: each half is decoded to U+FFFD, and the message
    handed to [handleAmiMessage] is not the one that was sent. *)
Lemma split_character_changes_message :
  let data1 := list_byte_of_string "Channel: SIP/caf" ++ [Byte.xc3] in
  let data2 := [Byte.xa9; Byte.x0d; Byte.x0a; Byte.x0d; Byte.x0a] in
  (receiveChunk "" (data1 ++ data2)).1
  = [string_of_list_byte (list_byte_of_string "Channel: SIP/caf" ++ [Byte.xc3; Byte.xa9])]
  ∧ (receiveChunk (receiveChunk "" data1).2 data2).1
    = ["Channel: SIP/caf" +:+ replacement +:+ replacement]
  ∧ (receiveChunk "" data1).1 = []
  ∧ (receiveChunk "" (data1 ++ data2)).1
    ≠ (receiveChunk "" data1).1 ++ (receiveChunk (receiveChunk "" data1).2 data2).1.
Proof. vm_compute. repeat split. discriminate. Qed.

End Framing.

(** ** Parsing what was written *)

Section Parsing.

Local Open Scope nat_scope.

Lemma trimStart_length (s : string) : String.length (trimStart s) ≤ String.length s.
Proof.
  induction s as [|c s IH]; [done|]. cbn [trimStart].
  destruct (isWhiteSpace c); simpl in *; lia.
Qed.

Lemma trimStart_fixed (c : ascii) (s : string) :
  trimStart (String c s) = String c s → isWhiteSpace c = false.
Proof.
  cbn [trimStart]. destruct (isWhiteSpace c); [|done].
  intros H. pose proof (trimStart_length s) as Hl. rewrite H in Hl. simpl in Hl. lia.
Qed.

Lemma trimEnd_app (s t : string) :
  t ≠ "" → trimEnd t = t → trimEnd (s +:+ t) = s +:+ t.
Proof.
  intros Ht Hfix. induction s as [|c s IH]; [done|].
  rewrite string_app_cons. cbn [trimEnd]. rewrite IH.
  destruct (s +:+ t) eqn:Heq; [|done].
  destruct s; [|discriminate]. by destruct t.
Qed.

Lemma cleanValue_inv (v : string) :
  cleanValue v = true →
  v ≠ "" ∧ trimStart v = v ∧ trimEnd v = v ∧ lacks CR v = true.
Proof.
  unfold cleanValue, trimmed.
  intros [[Hne [Hs He]%andb_true_iff]%andb_true_iff Hcr]%andb_true_iff.
  apply negb_true_iff, String.eqb_neq in Hne.
  apply String.eqb_eq in Hs, He. done.
Qed.

Lemma substringTo_exact (k t : string) : substringTo (String.length k) (k +:+ t) = k.
Proof.
  induction k as [|c k IH]; [by destruct t|].
  rewrite string_app_cons. simpl. by rewrite IH.
Qed.

Lemma substringFrom_exact (k t : string) : substringFrom (String.length k) (k +:+ t) = t.
Proof. induction k as [|c k IH]; [done|]. rewrite string_app_cons. simpl. exact IH. Qed.

Lemma substringFrom_next (k : string) (a : ascii) (t : string) :
  substringFrom (S (String.length k)) (k +:+ String a t) = t.
Proof. induction k as [|c k IH]; [done|]. rewrite string_app_cons. simpl. exact IH. Qed.

Lemma indexOf_colon (k t : string) :
  lacks ":" k = true → indexOf ":" (k +:+ String ":" t) = Some (String.length k).
Proof.
  induction k as [|c k IH]; intros Hk; [done|].
  cbn [lacks] in Hk. apply andb_true_iff in Hk as [Hc Hk].
  apply negb_true_iff in Hc. rewrite string_app_cons, indexOf_unfold.
  cbn [startsWith]. rewrite Ascii.eqb_sym, Hc. cbn [andb].
  by rewrite (IH Hk).
Qed.

(** A line as [sendAmiCommand] writes it, read by the loop of the parser. *)
Lemma parseLine_paramText (m : AmiResponse) (p : string * string) :
  cleanKey p.1 = true → cleanValue p.2 = true →
  parseLine m (paramText p) = <[p.1 := p.2]> m.
Proof.
  destruct p as [k v]. cbn [fst snd]. unfold cleanKey.
  intros [[Hk Hcolon]%andb_true_iff Hproto]%andb_true_iff Hv.
  apply cleanValue_inv in Hk as (Hkne & Hks & Hke & _).
  apply cleanValue_inv in Hv as (_ & Hvs & Hve & _).
  unfold parseLine, paramText. cbn [fst snd].
  change (k +:+ ": " +:+ v) with (k +:+ String ":" (String " " v)).
  rewrite (indexOf_colon _ _ Hcolon).
  destruct k as [|c k]; [done|]. cbn [String.length]. cbv zeta.
  change (S (String.length k)) with (String.length (String c k)).
  rewrite substringTo_exact, substringFrom_next. unfold trim. rewrite Hks, Hke.
  cbn [trimStart]. change (isWhiteSpace " ") with true. cbv iota.
  rewrite Hvs, Hve. apply negb_true_iff in Hproto. by rewrite Hproto.
Qed.

Lemma parse_lines (fields : list (string * string)) (m : AmiResponse) :
  Forall (fun p => cleanKey p.1 = true ∧ cleanValue p.2 = true) fields →
  fold_left parseLine (map paramText fields) m
  = fold_left (fun m p => <[p.1 := p.2]> m) fields m.
Proof.
  intros H. revert m. induction H as [|p ps [Hk Hv] _ IH]; intros m; [done|].
  cbn [map fold_left]. by rewrite parseLine_paramText, IH.
Qed.

Lemma paramText_good (p : string * string) :
  cleanKey p.1 = true → cleanValue p.2 = true → goodLine (paramText p).
Proof.
  destruct p as [k v]. cbn [fst snd]. unfold cleanKey.
  intros [[Hk _]%andb_true_iff _]%andb_true_iff Hv.
  apply cleanValue_inv in Hk as (Hkne & _ & _ & Hkcr).
  apply cleanValue_inv in Hv as (Hvne & _ & Hve & Hvcr).
  unfold paramText. cbn [fst snd]. split; [|split].
  - by destruct k.
  - by rewrite !lacks_app, Hkcr, Hvcr.
  - rewrite <- string_app_assoc. by apply trimEnd_app.
Qed.

Lemma splitCRLF_last (s cur : string) :
  lacks CR s = true → splitCRLF s cur = [cur +:+ s].
Proof.
  revert cur. induction s as [|c s IH]; intros cur Hs.
  - cbn. by rewrite string_app_nil_r.
  - cbn [lacks] in Hs. apply andb_true_iff in Hs as [Hc Hs].
    apply negb_true_iff in Hc. cbn [splitCRLF].
    destruct s as [|c' s'].
    + done.
    + unfold CR in Hc. rewrite Hc. cbn [andb]. rewrite (IH _ Hs).
      by rewrite string_app_assoc.
Qed.

Lemma concat_CRLF_cons (l l2 : string) (ls : list string) :
  String.concat CRLF (l :: l2 :: ls) = l +:+ CRLF +:+ String.concat CRLF (l2 :: ls).
Proof. done. Qed.

Lemma splitCRLF_concat (l : string) (ls : list string) :
  Forall goodLine (l :: ls) → splitCRLF (String.concat CRLF (l :: ls)) "" = l :: ls.
Proof.
  revert l. induction ls as [|l2 ls IH]; intros l H.
  - apply Forall_cons in H as [(_ & Hcr & _) _]. cbn [String.concat].
    by rewrite splitCRLF_last.
  - apply Forall_cons in H as [(_ & Hcr & _) H].
    rewrite concat_CRLF_cons, splitCRLF_line by done. by rewrite (IH l2 H).
Qed.

Lemma trimEnd_concat (l : string) (ls : list string) :
  Forall goodLine (l :: ls) →
  String.concat CRLF (l :: ls) ≠ ""
  ∧ trimEnd (String.concat CRLF (l :: ls)) = String.concat CRLF (l :: ls).
Proof.
  revert l. induction ls as [|l2 ls IH]; intros l H.
  - apply Forall_cons in H as [(Hne & _ & He) _]. done.
  - apply Forall_cons in H as [(Hne & _ & _) H].
    destruct (IH l2 H) as [Hne2 He2]. rewrite concat_CRLF_cons. split.
    + by destruct l.
    + rewrite trimEnd_app; [done| |].
      * by destruct (String.concat CRLF (l2 :: ls)).
      * change (CRLF +:+ String.concat CRLF (l2 :: ls))
          with (String CR (String LF "") +:+ String.concat CRLF (l2 :: ls)).
        rewrite <- (string_app_nil_r (String CR (String LF ""))) at 2.
        rewrite (trimEnd_app (String CR (String LF "")) _ Hne2 He2).
        by rewrite string_app_nil_r.
Qed.

Lemma startsWith_messageEnd (c : ascii) (u : string) :
  startsWith messageEnd (String c u)
  = Ascii.eqb CR c && startsWith (String LF CRLF) u.
Proof. reflexivity. Qed.

Lemma indexOf_skip (s t : string) :
  lacks CR s = true →
  indexOf messageEnd (s +:+ t)
  = option_map (fun i => String.length s + i) (indexOf messageEnd t).
Proof.
  induction s as [|c s IH]; intros Hs.
  - change ("" +:+ t) with t. by destruct (indexOf messageEnd t).
  - cbn [lacks] in Hs. apply andb_true_iff in Hs as [Hc Hs].
    apply negb_true_iff in Hc. rewrite string_app_cons, indexOf_unfold.
    rewrite startsWith_messageEnd, Ascii.eqb_sym, Hc. cbn [andb].
    rewrite (IH Hs). by destruct (indexOf messageEnd t).
Qed.

Lemma indexOf_break (c : ascii) (t : string) :
  Ascii.eqb c CR = false →
  indexOf messageEnd (CRLF +:+ String c t)
  = option_map (fun i => 2 + i) (indexOf messageEnd (String c t)).
Proof.
  intros Hc.
  change (CRLF +:+ String c t) with (String CR (String LF (String c t))).
  rewrite indexOf_unfold, startsWith_messageEnd.
  change (startsWith (String LF CRLF) (String LF (String c t)))
    with (Ascii.eqb LF LF && (Ascii.eqb CR c && startsWith (String LF "") t)).
  rewrite (Ascii.eqb_sym CR c), Hc, !andb_false_r.
  rewrite (indexOf_unfold _ (String LF (String c t))), startsWith_messageEnd.
  change (Ascii.eqb CR LF) with false. cbn [andb].
  by destruct (indexOf messageEnd (String c t)).
Qed.

Lemma indexOf_messageEnd_concat (l : string) (ls : list string) (t : string) :
  Forall goodLine (l :: ls) →
  indexOf messageEnd (String.concat CRLF (l :: ls) +:+ messageEnd +:+ t)
  = Some (String.length (String.concat CRLF (l :: ls))).
Proof.
  revert l. induction ls as [|l2 ls IH]; intros l H.
  - apply Forall_cons in H as [(_ & Hcr & _) _]. cbn [String.concat].
    rewrite (indexOf_skip _ _ Hcr).
    change (indexOf messageEnd (messageEnd +:+ t)) with (Some 0).
    cbn [option_map]. f_equal. lia.
  - apply Forall_cons in H as [(_ & Hcr & _) H].
    pose proof H as H2. apply Forall_cons in H2 as [(Hne2 & Hcr2 & _) _].
    rewrite concat_CRLF_cons, !string_app_assoc.
    rewrite (indexOf_skip _ _ Hcr).
    specialize (IH l2 H).
    destruct (String.concat CRLF (l2 :: ls)) as [|c rest] eqn:Hcat.
    { destruct ls; cbn [String.concat] in Hcat; [done|by destruct l2]. }
    assert (Ascii.eqb c CR = false) as Hc.
    { destruct l2 as [|c2 l2']; [done|]. cbn [lacks] in Hcr2.
      apply andb_true_iff in Hcr2 as [Hc2 _]. apply negb_true_iff in Hc2.
      destruct ls; cbn [String.concat] in Hcat; rewrite ?string_app_cons in Hcat;
        by injection Hcat as <- _. }
    rewrite string_app_cons. rewrite (indexOf_break c _ Hc).
    rewrite string_app_cons in IH. rewrite IH. cbn [option_map].
    f_equal. rewrite !string_length_app. change (String.length CRLF) with 2. lia.
Qed.

(** The lines of a message, CR LF after each, and the blank line. *)
Lemma wire_concat (p : string * string) (ps : list (string * string)) :
  wire (p :: ps)
  = String.concat CRLF (map paramText (p :: ps)) +:+ messageEnd +:+ "".
Proof.
  unfold wire. revert p. induction ps as [|p2 ps IH]; intros p.
  - cbn [map String.concat]. unfold paramLine, messageEnd.
    by rewrite !string_app_assoc.
  - change (map paramLine (p :: p2 :: ps)) with (paramLine p :: map paramLine (p2 :: ps)).
    change (map paramText (p :: p2 :: ps)) with (paramText p :: paramText p2 :: map paramText ps).
    rewrite concat_cons, concat_CRLF_cons. unfold paramLine at 1.
    rewrite !string_app_assoc. f_equal. f_equal. apply IH.
Qed.

Lemma amiFrame_wire (command aid : string) (params : list (string * string)) :
  amiFrame command aid params
  = wire (("Action", command) :: ("ActionID", aid) :: params).
Proof.
  unfold amiFrame, wire. cbn [map]. rewrite !concat_cons.
  unfold paramLine, paramText. cbn [fst snd].
  rewrite !string_app_assoc. reflexivity.
Qed.

(** A message on the wire whose fields are clean is delivered as one
    message and parses to the object with these fields. *)
Lemma onData_wire (p : string * string) (ps : list (string * string)) :
  Forall (fun p => cleanKey p.1 = true ∧ cleanValue p.2 = true) (p :: ps) →
  onData "" (wire (p :: ps)) = ([asObject (p :: ps)], "").
Proof.
  intros Hf. set (fields := p :: ps) in *.
  assert (Forall goodLine (map paramText fields)) as Hgood.
  { apply Forall_map. eapply Forall_impl; [exact Hf|].
    intros q [Hk Hv]. by apply paramText_good. }
  set (body := String.concat CRLF (map paramText fields)).
  assert (wire fields = body +:+ messageEnd +:+ "") as Hframe by apply wire_concat.
  assert (indexOf messageEnd (body +:+ messageEnd +:+ "") = Some (String.length body))
    as Hidx by (by apply indexOf_messageEnd_concat).
  assert (receive "" (wire fields) = ([body], "")) as Hrecv.
  { unfold receive. change ("" +:+ wire fields) with (wire fields).
    rewrite Hframe.
    assert (String.length (body +:+ messageEnd +:+ "")
            = S (String.length body + 3)) as ->.
    { rewrite !string_length_app. change (String.length messageEnd) with 4.
      simpl. lia. }
    rewrite (drainBuffer_found _ _ _ Hidx).
    rewrite substringTo_exact.
    rewrite <- (string_app_assoc body messageEnd "").
    assert (String.length body + 4 = String.length (body +:+ messageEnd)) as ->.
    { rewrite string_length_app. done. }
    rewrite substringFrom_exact.
    by rewrite drainBuffer_none. }
  unfold onData. rewrite Hrecv. cbn [fst snd map]. f_equal. f_equal.
  unfold parseAmiMessage, asObject.
  assert (trim body = body) as ->.
  { unfold trim.
    assert (trimStart body = body) as ->; [|by apply trimEnd_concat].
    apply Forall_cons in Hf as [[Hk _] _]. unfold cleanKey in Hk.
    apply andb_true_iff in Hk as [[Hk _]%andb_true_iff _].
    apply cleanValue_inv in Hk as (Hne & Hs & _).
    subst body fields. destruct p as [k v]. cbn [fst] in *.
    destruct k as [|c k]; [done|]. apply trimStart_fixed in Hs.
    assert (∃ rest, String.concat CRLF (map paramText ((String c k, v) :: ps))
                    = String c rest) as [rest ->].
    { destruct ps; cbn [map String.concat]; unfold paramText at 1; cbn [fst snd];
        rewrite ?string_app_cons; by eexists. }
    cbn [trimStart]. by rewrite Hs. }
  subst body fields. cbn [map] in *. rewrite splitCRLF_concat by done.
  by apply (parse_lines (p :: ps)).
Qed.

(** X24: what [sendAmiCommand] writes, the 'data' callback and the parser
    read back. For a command name, an identifier and parameters that are
    clean (not empty, no white space at either end, no carriage return; no
    colon in a key and no key [__proto__]), the frame handed to the 'data'
    callback with an empty buffer is delivered as one message, nothing stays
    in the buffer, and the message parses to the object with the fields
    Action, ActionID and the parameters, assigned in this order, so that of
    two fields with the same key the later one is kept. *)
Theorem written_frame_parses_back (command aid : string)
    (params : list (string * string)) :
  cleanValue command = true → cleanValue aid = true →
  Forall (fun p => cleanKey p.1 = true ∧ cleanValue p.2 = true) params →
  onData "" (amiFrame command aid params)
  = ([asObject (("Action", command) :: ("ActionID", aid) :: params)], "").
Proof.
  intros Hc Ha Hp. rewrite amiFrame_wire. apply onData_wire.
  repeat constructor; done.
Qed.

Lemma written_frame_parses_back_witness :
  onData "" (amiFrame "Originate" "action_1_1000"
                      (originateParams "1001" "2000" "k3x9a7"))
  = ([asObject (("Action", "Originate") :: ("ActionID", "action_1_1000")
                :: originateParams "1001" "2000" "k3x9a7")], "").
Proof.
  apply written_frame_parses_back.
  - reflexivity.
  - reflexivity.
  - repeat constructor.
Defined.

(** X25: the way of a PBX event from the socket to the table. The text of
    a Newchannel event with clean fields (event name, unique identifier,
    caller number, extension, channel), handed to the 'data' callback with
    an empty buffer, is delivered as one message; handled in any state of
    the client, that message stores an incoming PBX call under the unique
    identifier, with the caller number, the extension, the channel and the
    time of the handler as start time, and emits its 'incoming'
    notification. *)
Theorem newchannel_bytes_create_call (st : State) (u f t c rid : string) (now : Z) :
  cleanValue u = true → cleanValue f = true → cleanValue t = true →
  cleanValue c = true →
  let text := wire [("Event", "Newchannel"); ("Uniqueid", u); ("CallerIDNum", f);
                    ("Exten", t); ("Channel", c)] in
  let call := mkCall u f t incoming now None None (Some c) None asterisk in
  ∃ message,
    onData "" text = ([message], "")
    ∧ step now (SocketMessage message rid) st
      = (set_calls (<[u := call]> (calls st)) st,
         [CallEventEmitted (mkEvent incoming u (DataCall call))]).
Proof.
  intros Hu Hf Ht Hc. cbv zeta.
  set (fields := [("Event", "Newchannel"); ("Uniqueid", u); ("CallerIDNum", f);
                  ("Exten", t); ("Channel", c)]).
  exists (asObject fields). split.
  { apply onData_wire. subst fields. repeat constructor; done. }
  apply cleanValue_inv in Hu as (Hu & _).
  apply cleanValue_inv in Hf as (Hf & _).
  apply cleanValue_inv in Ht as (Ht & _).
  set (m := asObject fields).
  assert (m !! "ActionID" = None) as HA by done.
  assert (m !! "Event" = Some "Newchannel") as HE by done.
  assert (m !! "Uniqueid" = Some u) as HU by done.
  assert (m !! "CallerIDNum" = Some f) as HF by done.
  assert (m !! "Exten" = Some t) as HT by done.
  assert (m !! "Channel" = Some c) as HC by done.
  cbn [step]. unfold handleAmiMessage. rewrite HA, HE. cbn [truthy].
  change (negb (String.eqb "Newchannel" "")) with true. cbv iota.
  unfold handleAmiEvent, fieldIs. rewrite HE, HT, HF.
  change (String.eqb "Newchannel" "Newchannel") with true. cbv iota.
  rewrite !truthy_nonempty by done. cbn [andb].
  unfold handleIncomingCall, orElse. rewrite HU, HF, HT, HC.
  rewrite !truthy_nonempty by done. reflexivity.
Qed.

Lemma newchannel_bytes_create_call_witness :
  ∃ message,
    onData "" (wire [("Event", "Newchannel"); ("Uniqueid", "17.1");
                     ("CallerIDNum", "1001"); ("Exten", "2000");
                     ("Channel", "SIP/1001-1")])
    = ([message], "")
    ∧ step 0 (SocketMessage message "r1") (initial exampleConfig)
      = (set_calls (<["17.1" := ringingCall]> (calls (initial exampleConfig)))
                   (initial exampleConfig),
         [CallEventEmitted (mkEvent incoming "17.1" (DataCall ringingCall))]).
Proof.
  apply (newchannel_bytes_create_call (initial exampleConfig) "17.1" "1001" "2000"
           "SIP/1001-1" "r1" 0); reflexivity.
Defined.

End Parsing.
